(** * SqrGrid: a sparse square grid of cells (src/grids/SqrGrid.js)

    Shallow embedding of [vg.SqrGrid] and verification of its cell store,
    coordinate conversions, neighbour enumeration, generation, random selection
    and JSON load/save.

    Modelling conventions.
    - JavaScript numbers are exact: cell coordinates and heights are integers
      ([Z]); [cellSize] and world positions are rationals ([Q]).  A division
      whose result is not finite (division by zero) is reported as [None].
    - Cells are mutable objects handled by reference: a [heap] maps locations to
      cell values, and the grid stores locations.  The grid's scratch cell
      [_cel] is such a location, so that aliasing with it is visible.
    - [this.cells] is a JavaScript object used as a map with string keys.  Every
      key built by [cellToHash] contains the delimiter and so is not an array
      index: enumeration ([for .. in]) follows insertion order.  The object is
      an association list in that order. *)

From Stdlib Require Import ZArith QArith Qround Ascii Lqa.
From stdpp Require Import base list strings pretty.

Local Open Scope Z_scope.

(** ** JavaScript objects used as string-keyed maps *)

Module Obj.

Definition t (V : Type) := list (string * V).

Definition empty {V : Type} : t V := [].

(** [o[k]]; [None] is [undefined]. *)
Fixpoint get {V : Type} (o : t V) (k : string) : option V :=
  match o with
  | [] => None
  | (k', v) :: o' => if String.eqb k' k then Some v else get o' k
  end.

(** [o[k] = v]: an existing property keeps its place, a new one goes last. *)
Fixpoint set {V : Type} (o : t V) (k : string) (v : V) : t V :=
  match o with
  | [] => [(k, v)]
  | (k', v') :: o' =>
      if String.eqb k' k then (k', v) :: o' else (k', v') :: set o' k v
  end.

(** [delete o[k]]. *)
Fixpoint delete {V : Type} (o : t V) (k : string) : t V :=
  match o with
  | [] => []
  | (k', v') :: o' =>
      if String.eqb k' k then delete o' k else (k', v') :: delete o' k
  end.

(** The keys that [for (k in o)] enumerates, in order. *)
Definition keys {V : Type} (o : t V) : list string := map fst o.

(** [for (k in o) body], threading the state of the loop. *)
Definition for_in {V S : Type} (o : t V) (body : string -> S -> S) (s0 : S) : S :=
  fold_left (fun s k => body k s) (keys o) s0.

End Obj.

(** ** Numbers *)



Definition Math_ceil (x : Q) : Z := Qceiling x.

(** [for (i = lo; i < hi; i++) body]. *)
Definition for_range {S : Type} (lo hi : Z) (body : Z -> S -> S) (s0 : S) : S :=
  fold_left (fun s i => body i s) (seqZ lo (hi - lo)) s0.

(** What a call produces: a value, or a thrown exception. *)
Inductive exn : Type :=
| TypeError (msg : string).

Inductive outcome (A : Type) : Type :=
| Return (a : A)
| Throw (e : exn).
Arguments Return {A} a.
Arguments Throw {A} e.

(** ** Cells *)

(** References to cells are locations of the heap. *)
Abbreviation loc := nat.

Definition UserData := list (string * string).

Module Cell.

(** Modelled from the spec: the fields of a cell that are persisted, which are
    also the fields that [copy] reads from its argument. *)
Record data : Type := mkData {
  d_q : Z;
  d_r : Z;
  d_s : Z;
  d_h : Z;
  d_walkable : bool;
  d_userData : UserData
}.

(** Modelled from the spec: [vg.Cell], whose source file is not part of the
    sources.  A cell has three coordinates, a height, the walkable flag, the
    caller's [userData], and the scratch fields of the path finder (named as
    [clearPath] names them). *)
Record t : Type := mk {
  q : Z;
  r : Z;
  s : Z;
  h : Z;
  walkable : bool;
  userData : UserData;
  _calcCost : Z;
  _priority : Z;
  _parent : option loc;
  _visited : bool
}.

(** Modelled from the spec: the height of a cell built without one.  The spec
    names a default height and not its value; nothing below depends on it. *)
Definition default_h : Z := 1.

(** Modelled from the spec: [new vg.Cell(q, r, s)].  Scratch fields start in
    their zero state (cost 0, priority 0, no parent, not visited); a cell is
    walkable and has empty [userData] until the caller says otherwise. *)
Definition new (q0 r0 s0 : Z) : t :=
  mk q0 r0 s0 default_h true [] 0 0 None false.

(** Modelled from the spec: [this.set(q, r, s)] overwrites the coordinates. *)
Definition set (this : t) (q0 r0 s0 : Z) : t :=
  mk q0 r0 s0 (h this) (walkable this) (userData this)
     (_calcCost this) (_priority this) (_parent this) (_visited this).

(** Modelled from the spec: [this.copy(cell)] takes over the persisted fields of
    [cell] and keeps its own scratch fields. *)
Definition copy (this : t) (src : data) : t :=
  mk (d_q src) (d_r src) (d_s src) (d_h src) (d_walkable src) (d_userData src)
     (_calcCost this) (_priority this) (_parent this) (_visited this).

(** Modelled from the spec: [this.add(cell)] adds the coordinates of [cell]. *)
Definition add (this : t) (d : t) : t :=
  mk (q this + q d) (r this + r d) (s this + s d)
     (h this) (walkable this) (userData this)
     (_calcCost this) (_priority this) (_parent this) (_visited this).

(** The persisted fields of a cell, as [toJSON] writes them. *)
Definition fields (c : t) : data :=
  mkData (q c) (r c) (s c) (h c) (walkable c) (userData c).

End Cell.

(** ** The heap of cell objects *)

Record heap : Type := mkHeap {
  at_loc : loc -> Cell.t;
  next : loc
}.

Definition deref (H : heap) (l : loc) : Cell.t := at_loc H l.

Definition store (H : heap) (l : loc) (c : Cell.t) : heap :=
  mkHeap (fun l' => if Nat.eqb l' l then c else at_loc H l') (next H).

(** [new vg.Cell(..)]: the object lives at the next unused location. *)
Definition alloc (H : heap) (c : Cell.t) : heap * loc :=
  (mkHeap (fun l' => if Nat.eqb l' (next H) then c else at_loc H l')
          (Datatypes.S (next H)),
   next H).

Definition empty_heap : heap := mkHeap (fun _ => Cell.new 0 0 0) 0%nat.

(** ** The grid *)

Record Vector3 : Type := mkVector3 {
  v_x : Q;
  v_y : Q;
  v_z : Q
}.

(** The parsed JSON that [fromJSON] reads and [toJSON] writes.  [cells] may be
    missing from a record handed to [fromJSON]; [extrudeSettings] is passed
    through to the renderer untouched. *)
Module Json.

Record t : Type := mk {
  size : Z;
  cellSize : Q;
  extrudeSettings : option string;
  autogenerated : bool;
  cells : option (list Cell.data)
}.

End Json.

Module SqrGrid.

Record t : Type := mk {
  size : Z;
  cellSize : Q;
  cells : Obj.t loc;
  numCells : Z;
  extrudeSettings : option string;
  autogenerated : bool;
  _fullCellSize : Q;
  _list : list loc;
  _vec3 : Vector3;
  _cel : loc
}.

Definition _hashDelimeter : string := "."%string.

(** The pre-computed offsets; the constructor builds them once and nothing
    writes to them afterwards. *)
Definition _directions : list Cell.t :=
  [Cell.new 1 0 0; Cell.new 0 (-1) 0; Cell.new (-1) 0 0; Cell.new 0 1 0].

Definition _diagonals : list Cell.t :=
  [Cell.new (-1) (-1) 0; Cell.new (-1) 1 0; Cell.new 1 1 0; Cell.new 1 (-1) 0].

(** [new vg.SqrGrid(config)]; [config.cellSize] may be left out. *)
Definition new (H : heap) (config_cellSize : option Q) : heap * t :=
  let cs := match config_cellSize with None => 10%Q | Some c => c end in
  let '(H1, cel) := alloc H (Cell.new 0 0 0) in
  (H1, mk 5 cs Obj.empty 0 None false (cs * 2)%Q [] (mkVector3 0 0 0) cel).

Definition with_cells (g : t) (cs : Obj.t loc) (n : Z) : t :=
  mk (size g) (cellSize g) cs n (extrudeSettings g) (autogenerated g)
     (_fullCellSize g) (_list g) (_vec3 g) (_cel g).

Definition with_list (g : t) (l : list loc) : t :=
  mk (size g) (cellSize g) (cells g) (numCells g) (extrudeSettings g)
     (autogenerated g) (_fullCellSize g) l (_vec3 g) (_cel g).


Definition with_size (g : t) (n : Z) : t :=
  mk n (cellSize g) (cells g) (numCells g) (extrudeSettings g)
     (autogenerated g) (_fullCellSize g) (_list g) (_vec3 g) (_cel g).

(** [cell.q + this._hashDelimeter + cell.r]: the decimal text of the two
    coordinates around the delimiter. *)
Definition hash_of (q r : Z) : string :=
  pretty q +:+ _hashDelimeter +:+ pretty r.

Definition cellToHash (cell : Cell.t) : string :=
  hash_of (Cell.q cell) (Cell.r cell).




(** One round of either loop of [getNeighbors]: the scratch cell becomes
    [cell] moved by [d]; the cell stored under its key, when there is one and
    the filter lets it pass, is pushed onto the list. *)
Definition probe (g : t) (cell : loc) (filter : option (Cell.t -> Cell.t -> bool))
    (st : heap * list loc) (d : Cell.t) : heap * list loc :=
  let '(H, lst) := st in
  let H1 := store H (_cel g) (Cell.copy (deref H (_cel g)) (Cell.fields (deref H cell))) in
  let H2 := store H1 (_cel g) (Cell.add (deref H1 (_cel g)) d) in
  match Obj.get (cells g) (cellToHash (deref H2 (_cel g))) with
  | None => (H2, lst)
  | Some n =>
      match filter with
      | Some f => if f (deref H2 cell) (deref H2 n) then (H2, lst ++ [n]) else (H2, lst)
      | None => (H2, lst ++ [n])
      end
  end.

(** [getNeighbors(cell, diagonal, filter)]; the list returned is the grid's own
    [_list]. *)
Definition getNeighbors (H : heap) (g : t) (cell : loc) (diagonal : bool)
    (filter : option (Cell.t -> Cell.t -> bool)) : heap * t * list loc :=
  let st1 := fold_left (probe g cell filter) _directions (H, []) in
  let st2 := if diagonal then fold_left (probe g cell filter) _diagonals st1 else st1 in
  (fst st2, with_list g (snd st2), snd st2).

(** The loop of [getRandomCell]: [c] is the loop variable, [None] while it is
    still [undefined]; reading [this.cells[undefined]] reads the property
    named "undefined". *)
Fixpoint getRandomCell_loop (cs : Obj.t loc) (ks : list string) (i x : Z)
    (c : option string) : option loc :=
  match ks with
  | [] => Obj.get cs (match c with Some k => k | None => "undefined"%string end)
  | k :: ks' =>
      if Z.eqb i x then Obj.get cs k
      else getRandomCell_loop cs ks' (i + 1) x (Some k)
  end.

(** [getRandomCell], given the number [x] that [vg.Tools.randomInt(0,
    this.numCells)] returned. *)
Definition getRandomCell (g : t) (x : Z) : outcome (option loc) :=
  Return (getRandomCell_loop (cells g) (Obj.keys (cells g)) 0 x None).

Definition distance (cellA cellB : Cell.t) : Z :=
  Z.max (Z.abs (Cell.q cellA - Cell.q cellB)) (Z.abs (Cell.r cellA - Cell.r cellB))
  + (Cell.h cellB - Cell.h cellA).

(** The four assignments of the body of [clearPath]. *)
Definition clear_scratch (c : Cell.t) : Cell.t :=
  Cell.mk (Cell.q c) (Cell.r c) (Cell.s c) (Cell.h c) (Cell.walkable c)
          (Cell.userData c) 0 0 None false.

(** [clearPath()].  A key that the loop enumerates is a property of the object,
    so the second branch of the match is never taken. *)
Definition clearPath (H : heap) (g : t) : heap :=
  Obj.for_in (cells g)
    (fun i H' =>
       match Obj.get (cells g) i with
       | Some c => store H' c (clear_scratch (deref H' c))
       | None => H'
       end)
    H.

(** [traverse(cb)]: [cb] receives what [this.cells[i]] evaluates to and acts on
    the caller's state. *)
Definition traverse {S : Type} (g : t) (cb : option loc -> S -> S) (s0 : S) : S :=
  Obj.for_in (cells g) (fun i s => cb (Obj.get (cells g) i) s) s0.

(** [add(cell)]: [None] is the bare [return]. *)
Definition add (H : heap) (g : t) (cell : loc) : t * option loc :=
  let h := cellToHash (deref H cell) in
  match Obj.get (cells g) h with
  | Some _ => (g, None)
  | None => (with_cells g (Obj.set (cells g) h cell) (numCells g + 1), Some cell)
  end.

Definition remove (H : heap) (g : t) (cell : loc) : t :=
  let h := cellToHash (deref H cell) in
  match Obj.get (cells g) h with
  | Some _ => with_cells g (Obj.delete (cells g) h) (numCells g - 1)
  | None => g
  end.

(** The body of the inner loop of [generate]. *)
Definition generate_cell (x y : Z) (st : heap * t) : heap * t :=
  let '(H, g) := st in
  let '(H1, c) := alloc H (Cell.new x (y + 1) 0) in
  (H1, fst (add H1 g c)).

(** [generate(config)]; [config.size] may be left out. *)
Definition generate (H : heap) (g : t) (config_size : option Z) : heap * t :=
  let g1 := with_size g (match config_size with None => size g | Some n => n end) in
  let half := Math_ceil (inject_Z (size g1) / 2)%Q in
  for_range (- half) half
    (fun x st => for_range (- half) half (fun y st' => generate_cell x y st') st)
    (H, g1).

(** The body of the loop of [fromJSON]. *)
Definition load_cell (st : heap * t) (d : Cell.data) : heap * t :=
  let '(H, g) := st in
  let '(H1, c) := alloc H (Cell.new 0 0 0) in
  let H2 := store H1 c (Cell.copy (deref H1 c) d) in
  (H2, fst (add H2 g c)).

(** [fromJSON(json)].  The fields are overwritten before the loop reads
    [cells.length], which throws when [json.cells] is missing. *)
Definition fromJSON (H : heap) (g : t) (json : Json.t) : heap * t * outcome unit :=
  let g1 := mk (Json.size json) (Json.cellSize json) Obj.empty 0
               (Json.extrudeSettings json) (Json.autogenerated json)
               (Json.cellSize json * 2)%Q (_list g) (_vec3 g) (_cel g) in
  match Json.cells json with
  | None => (H, g1, Throw (TypeError "cells is undefined"%string))
  | Some cells =>
      let '(H', g') := fold_left load_cell cells (H, g1) in
      (H', g', Return tt)
  end.

(** [toJSON()].  A key that the loop enumerates is a property of the object, so
    the second branch of the match is never taken. *)
Definition toJSON (H : heap) (g : t) : Json.t :=
  Json.mk (size g) (cellSize g) (extrudeSettings g) (autogenerated g)
    (Some (Obj.for_in (cells g)
             (fun k acc =>
                match Obj.get (cells g) k with
                | Some c => acc ++ [Cell.fields (deref H c)]
                | None => acc
                end)
             [])).

End SqrGrid.

(** ** Vocabulary of the statements *)

(** A string without the hash delimiter. *)
Fixpoint no_delim (s : string) : Prop :=
  match s with
  | EmptyString => True
  | String c s' => c <> "."%char /\ no_delim s'
  end.

(** The mutations of the store.  Each one comes with the heap in which it is
    called: between two calls the program may build or change cells. *)
Inductive op : Type :=
| Insert (cell : loc)
| Remove (cell : loc).

Definition step (g : SqrGrid.t) (o : heap * op) : SqrGrid.t :=
  match o with
  | (H, Insert cell) => fst (SqrGrid.add H g cell)
  | (H, Remove cell) => SqrGrid.remove H g cell
  end.

Definition run (g : SqrGrid.t) (ops : list (heap * op)) : SqrGrid.t :=
  fold_left step ops g.

(** The store is consistent: no key occurs twice and [numCells] is the number
    of entries. *)
Definition counted (g : SqrGrid.t) : Prop :=
  NoDup (Obj.keys (SqrGrid.cells g))
  /\ SqrGrid.numCells g = Z.of_nat (length (SqrGrid.cells g)).

(** Every stored cell sits under the key of its current coordinates. *)
Definition keyed (H : heap) (g : SqrGrid.t) : Prop :=
  Forall (fun kv => fst kv = SqrGrid.cellToHash (deref H (snd kv))) (SqrGrid.cells g).


(** The neighbours as the spec words them: the offsets in their fixed order, the
    four orthogonal ones and then, on request, the four diagonal ones; at each
    offset the cell that the store holds for that coordinate, if there is one
    and the filter accepts it. *)
Definition offsets (diagonal : bool) : list (Z * Z) :=
  [(1, 0); (0, -1); (-1, 0); (0, 1)]
  ++ (if diagonal then [(-1, -1); (-1, 1); (1, 1); (1, -1)] else []).

Definition neighbour_at (H : heap) (g : SqrGrid.t) (cell : loc)
    (filter : option (Cell.t -> Cell.t -> bool)) (d : Z * Z) : option loc :=
  match Obj.get (SqrGrid.cells g)
          (SqrGrid.hash_of (Cell.q (deref H cell) + fst d)
                           (Cell.r (deref H cell) + snd d)) with
  | Some n =>
      match filter with
      | Some f => if f (deref H cell) (deref H n) then Some n else None
      | None => Some n
      end
  | None => None
  end.

Definition expected_neighbours (H : heap) (g : SqrGrid.t) (cell : loc)
    (diagonal : bool) (filter : option (Cell.t -> Cell.t -> bool)) : list loc :=
  omap (neighbour_at H g cell filter) (offsets diagonal).

(** The scratch cell of the grid is not one of the stored cells. *)
Definition scratch_apart (g : SqrGrid.t) : Prop :=
  Forall (fun kv => snd kv <> SqrGrid._cel g) (SqrGrid.cells g).

(** [add], seen from the store: a cell at location [snd kl] arrives with key
    [fst kl]. *)
Definition add_at (g : SqrGrid.t) (kl : string * loc) : SqrGrid.t :=
  match Obj.get (SqrGrid.cells g) (fst kl) with
  | Some _ => g
  | None =>
      SqrGrid.with_cells g (Obj.set (SqrGrid.cells g) (fst kl) (snd kl))
                         (SqrGrid.numCells g + 1)
  end.

(** A loop body that builds one new cell, of value [val a], at the next
    location, touches no other cell and adds the new one. *)
Definition allocates {A : Type} (stp : heap * SqrGrid.t -> A -> heap * SqrGrid.t)
    (val : A -> Cell.t) : Prop :=
  forall H g a,
    let st := stp (H, g) a in
    next (fst st) = S (next H)
    /\ deref (fst st) (next H) = val a
    /\ (forall l, l <> next H -> deref (fst st) l = deref H l)
    /\ snd st = add_at g (SqrGrid.cellToHash (val a), next H).

(** The cell that [fromJSON] builds from a record. *)
Definition load_value (d : Cell.data) : Cell.t := Cell.copy (Cell.new 0 0 0) d.

(** The key under which [fromJSON] stores a record. *)
Definition data_hash (d : Cell.data) : string :=
  SqrGrid.hash_of (Cell.d_q d) (Cell.d_r d).

(** The persisted fields of the stored cells, in the order of the store. *)
Definition stored_records (H : heap) (g : SqrGrid.t) : list Cell.data :=
  map (fun kv => Cell.fields (deref H (snd kv))) (SqrGrid.cells g).

(** The coordinates [(q, r)] of the stored cells, in the order of the store. *)
Definition stored_pairs (H : heap) (g : SqrGrid.t) : list (Z * Z) :=
  map (fun kv => (Cell.q (deref H (snd kv)), Cell.r (deref H (snd kv))))
      (SqrGrid.cells g).

(** The scratch fields of the path finder are in their zero state. *)
Definition scratch_clear (c : Cell.t) : Prop :=
  Cell._calcCost c = 0 /\ Cell._priority c = 0
  /\ Cell._parent c = None /\ Cell._visited c = false.

(** Malformed input as the spec words it: duplicate [(q, r)] pairs, a negative
    [cellSize], or a missing required field. *)
Definition malformed (j : Json.t) : Prop :=
  (Json.cellSize j < 0)%Q
  \/ Json.cells j = None
  \/ exists ds, Json.cells j = Some ds
                /\ ~ NoDup (map (fun d => (Cell.d_q d, Cell.d_r d)) ds).

(** The pairs that the spec announces for [generate({size: 5})]: [-3, 2) for
    [q] and [-2, 3) for [r]. *)
Definition announced_pairs : list (Z * Z) :=
  list_prod (seqZ (-3) 5) (seqZ (-2) 5).

(** [clearPath] over the locations of the store, one after the other. *)
Definition clear_all (ls : list loc) (H : heap) : heap :=
  fold_left (fun H' l => store H' l (SqrGrid.clear_scratch (deref H' l))) ls H.

(** The cells that [generate] builds for half-width [half], in the order of the
    loops. *)
Definition generated_steps (half : Z) : list (Z * Z) :=
  list_prod (seqZ (- half) (half - - half)) (seqZ (- half) (half - - half)).

(** The cell built in the round [(x, y)] of the loops. *)
Definition generated_value (xy : Z * Z) : Cell.t := Cell.new (fst xy) (snd xy + 1) 0.

(** The size that [generate] works with: the one given, or the grid's. *)
Definition config_size (g : SqrGrid.t) (config_size : option Z) : Z :=
  match config_size with None => SqrGrid.size g | Some n => n end.

(** ** Sample cells and grids *)

Definition cell_at (q r h : Z) : Cell.t :=
  Cell.mk q r 0 h true [] 0 0 None false.

(** A caller that builds the cells [cs] one after the other and adds each. *)
Definition populate (st : heap * SqrGrid.t) (cs : list Cell.t) : heap * SqrGrid.t :=
  fold_left
    (fun st c =>
       let '(H1, l) := alloc (fst st) c in
       (H1, fst (SqrGrid.add H1 (snd st) l)))
    cs st.

(** A grid as the constructor leaves it; its scratch cell is at location 0. *)
Definition fresh_grid : heap * SqrGrid.t := SqrGrid.new empty_heap None.

(** One stored cell at [(0, 0)] with height 5 (location 1), and next to it a
    cell at [(0, 0)] with height 9 that is not stored (location 2). *)
Definition one_cell_grid : heap * SqrGrid.t :=
  let '(H, g) := populate fresh_grid [cell_at 0 0 5] in
  (fst (alloc H (cell_at 0 0 9)), g).

(** The nine cells around the origin, all stored (locations 1 to 9). *)
Definition grid3x3 : heap * SqrGrid.t :=
  populate fresh_grid
    [cell_at (-1) (-1) 1; cell_at (-1) 0 1; cell_at (-1) 1 1;
     cell_at 0 (-1) 1; cell_at 0 0 1; cell_at 0 1 1;
     cell_at 1 (-1) 1; cell_at 1 0 1; cell_at 1 1 1].



(** [generate({size: 4})] and [generate({size: 5})] on a grid as the
    constructor leaves it. *)
Definition generated4 : heap * SqrGrid.t :=
  SqrGrid.generate (fst fresh_grid) (snd fresh_grid) (Some 4).

Definition generated5 : heap * SqrGrid.t :=
  SqrGrid.generate (fst fresh_grid) (snd fresh_grid) (Some 5).

(** A record with a negative [cellSize] and two cells at [(0, 0)], and a record
    without [cells]. *)
Definition twice_json : Json.t :=
  Json.mk 5 (-1) None false
    (Some [Cell.mkData 0 0 0 1 true []; Cell.mkData 0 0 0 2 true []]).

Definition no_cells_json : Json.t := Json.mk 5 10 None false None.

(** The nine cells in the middle of a path search: the cell at the origin
    (location 5) carries a cost, a priority, a parent and the visited mark. *)
Definition grid3x3_searched : heap * SqrGrid.t :=
  (store (fst grid3x3) 5%nat (Cell.mk 0 0 0 1 true [] 7 3 (Some 4%nat) true),
   snd grid3x3).

(** A record with two cells at different coordinates. *)
Definition two_cells_json : Json.t :=
  Json.mk 3 (5 # 2) (Some "bevel"%string) true
    (Some [Cell.mkData 0 0 0 1 true [];
           Cell.mkData 1 (-2) 0 4 false [("kind"%string, "rock"%string)]]).

(** * Properties *)

(** A closed, decidable statement is settled by evaluating its decision
    procedure. *)
Ltac by_computation := apply (bool_decide_unpack _); vm_compute; reflexivity.

(** ** Objects as maps *)

Section ObjFacts.
Context {V : Type}.
Implicit Types (o : Obj.t V) (k : string) (v : V).

Lemma obj_get_None o k : Obj.get o k = None <-> k ∉ Obj.keys o.
Proof.
  induction o as [|[k' v'] o IH]; simpl.
  - split; [intros _; apply not_elem_of_nil | done].
  - rewrite not_elem_of_cons. destruct (String.eqb_spec k' k) as [->|Hne].
    + split; [done | intros [? _]; done].
    + rewrite IH. split; [intros ?; split; congruence | by intros [_ ?]].
Qed.

Lemma obj_get_Some_In o k v : Obj.get o k = Some v -> (k, v) ∈ o.
Proof.
  induction o as [|[k' v'] o IH]; simpl; [done|].
  destruct (String.eqb_spec k' k) as [->|Hne].
  - intros [= ->]. apply list_elem_of_here.
  - intros Hg. apply list_elem_of_further. auto.
Qed.

Lemma obj_In_get o k v : NoDup (Obj.keys o) -> (k, v) ∈ o -> Obj.get o k = Some v.
Proof.
  induction o as [|[k' v'] o IH]; simpl; intros Hnd Hin.
  - by apply elem_of_nil in Hin.
  - apply NoDup_cons in Hnd as [Hk' Hnd].
    apply elem_of_cons in Hin as [[= -> ->]|Hin].
    + by rewrite String.eqb_refl.
    + destruct (String.eqb_spec k' k) as [->|Hne]; [|by auto].
      exfalso. apply Hk'. change k with (fst (k, v)).
      by apply list_elem_of_fmap_2.
Qed.

Lemma obj_set_absent o k v : Obj.get o k = None -> Obj.set o k v = o ++ [(k, v)].
Proof.
  induction o as [|[k' v'] o IH]; simpl; [done|].
  destruct (String.eqb k' k); [done|]. intros Hg. by rewrite IH.
Qed.

Lemma obj_get_app o o' k :
  Obj.get (o ++ o') k = match Obj.get o k with Some v => Some v | None => Obj.get o' k end.
Proof.
  induction o as [|[k' v'] o IH]; simpl; [done|].
  by destruct (String.eqb k' k).
Qed.

Lemma obj_get_delete o k k' :
  Obj.get (Obj.delete o k) k' = if String.eqb k k' then None else Obj.get o k'.
Proof.
  induction o as [|[k0 v0] o IH]; simpl.
  - by destruct (String.eqb k k').
  - destruct (String.eqb_spec k0 k) as [->|Hne]; simpl.
    + rewrite IH. by destruct (String.eqb k k').
    + rewrite IH. destruct (String.eqb_spec k k') as [->|Hne'].
      * by apply String.eqb_neq in Hne as ->.
      * done.
Qed.

Lemma obj_keys_delete o k : Obj.keys (Obj.delete o k) = filter (fun k' => k' <> k) (Obj.keys o).
Proof.
  induction o as [|[k0 v0] o IH]; simpl; [done|].
  rewrite filter_cons. simpl.
  destruct (String.eqb_spec k0 k) as [->|Hne].
  - by rewrite decide_False by (intros ?; done).
  - rewrite decide_True by done. simpl. by rewrite IH.
Qed.

Lemma obj_delete_NoDup o k : NoDup (Obj.keys o) -> NoDup (Obj.keys (Obj.delete o k)).
Proof. rewrite obj_keys_delete. apply NoDup_filter. Qed.

Lemma obj_delete_absent o k : k ∉ Obj.keys o -> Obj.delete o k = o.
Proof.
  induction o as [|[k0 v0] o IH]; simpl; [done|].
  rewrite not_elem_of_cons. intros [Hne Hk].
  destruct (String.eqb_spec k0 k) as [->|_]; [done|]. by rewrite IH.
Qed.

Lemma obj_delete_length o k v :
  NoDup (Obj.keys o) -> Obj.get o k = Some v ->
  S (length (Obj.delete o k)) = length o.
Proof.
  induction o as [|[k0 v0] o IH]; simpl; [done|].
  intros Hnd Hg. apply NoDup_cons in Hnd as [Hk0 Hnd].
  destruct (String.eqb_spec k0 k) as [->|Hne].
  - by rewrite obj_delete_absent.
  - simpl. f_equal. by apply IH.
Qed.

(** A loop over the keys that reads each property is a loop over the
    entries. *)
Lemma obj_for_in_entries {S : Type} o (F : string -> option V -> S -> S) (s0 : S) :
  NoDup (Obj.keys o) ->
  Obj.for_in o (fun k s => F k (Obj.get o k) s) s0 =
  fold_left (fun s kv => F (fst kv) (Some (snd kv)) s) o s0.
Proof.
  intros Hnd. unfold Obj.for_in.
  assert (Hgen : forall (suf pre : Obj.t V) s,
             o = pre ++ suf ->
             fold_left (fun s k => F k (Obj.get o k) s) (Obj.keys suf) s =
             fold_left (fun s kv => F (fst kv) (Some (snd kv)) s) suf s).
  { induction suf as [|[k v] suf IH]; intros pre s Heq; simpl; [done|].
    rewrite (obj_In_get o k v Hnd).
    - apply (IH (pre ++ [(k, v)])). by rewrite <- app_assoc.
    - rewrite Heq. apply elem_of_app. right. apply list_elem_of_here. }
  by apply (Hgen o []).
Qed.

End ObjFacts.

Lemma fold_left_snoc {A B : Type} (f : A -> B) (xs : list A) (acc : list B) :
  fold_left (fun s x => s ++ [f x]) xs acc = acc ++ map f xs.
Proof.
  revert acc. induction xs as [|x xs IH]; intros acc; simpl.
  - by rewrite app_nil_r.
  - by rewrite IH, <- app_assoc.
Qed.

(** ** The hash key *)

Lemma pretty_N_go_no_delim (x : N) (s : string) :
  no_delim s -> no_delim (pretty_N_go x s).
Proof.
  revert s. induction (N.lt_wf_0 x) as [x _ IH]. intros s Hs.
  destruct (decide (x = 0%N)) as [->|Hx].
  - by rewrite pretty_N_go_0.
  - rewrite pretty_N_go_step by lia.
    apply IH.
    + apply N.div_lt; lia.
    + split; [|done]. unfold pretty_N_char. by repeat case_match.
Qed.

Lemma pretty_N_no_delim (x : N) : no_delim (pretty x).
Proof.
  unfold pretty, pretty_N. case_decide.
  - by split.
  - by apply pretty_N_go_no_delim.
Qed.

Lemma pretty_Z_no_delim (z : Z) : no_delim (pretty z).
Proof.
  destruct z as [|p|p]; unfold pretty, pretty_Z.
  - by split.
  - apply pretty_N_no_delim.
  - split; [done|]. apply pretty_N_no_delim.
Qed.

(** Two texts without the delimiter, each followed by the delimiter and a rest:
    if the wholes agree, so do the parts. *)
Lemma split_at_delim (a a' b b' : string) :
  no_delim a -> no_delim a' ->
  a +:+ "." +:+ b = a' +:+ "." +:+ b' -> a = a' /\ b = b'.
Proof.
  revert a'. induction a as [|c a IH]; intros [|c' a'] Ha Ha' Heq; simpl in *.
  - by injection Heq.
  - injection Heq as Hc _. destruct Ha' as [Hc' _]. by subst.
  - injection Heq as Hc _. destruct Ha as [Hc' _]. by subst.
  - injection Heq as -> Heq. destruct Ha as [_ Ha], Ha' as [_ Ha'].
    destruct (IH a' Ha Ha' Heq) as [-> ->]. done.
Qed.

Lemma hash_of_inj (q1 r1 q2 r2 : Z) :
  SqrGrid.hash_of q1 r1 = SqrGrid.hash_of q2 r2 -> q1 = q2 /\ r1 = r2.
Proof.
  unfold SqrGrid.hash_of, SqrGrid._hashDelimeter. intros Heq.
  apply split_at_delim in Heq as [Hq Hr]; try apply pretty_Z_no_delim.
  split; by apply (inj pretty).
Qed.

(** No hash is the property name that an [undefined] key turns into. *)
Lemma hash_of_not_undefined (q r : Z) : SqrGrid.hash_of q r <> "undefined"%string.
Proof.
  unfold SqrGrid.hash_of, SqrGrid._hashDelimeter.
  assert (Hgen : forall a b, no_delim a ->
            a +:+ "." +:+ b <> "undefined"%string).
  { intros a b Ha Heq.
    assert (Hd : ~ no_delim (a +:+ "." +:+ b)).
    { clear Heq. induction a as [|c a IH]; simpl; [by intros [? _]|].
      destruct Ha as [_ Ha]. intros [_ ?]. by apply IH. }
    apply Hd. rewrite Heq. simpl. repeat split; done. }
  apply Hgen, pretty_Z_no_delim.
Qed.

(** C5: the key of a cell is decided by [(q, r)] and by nothing else.  Two cells
    get the same key exactly when their [q] and their [r] agree: cells with
    different pairs get different keys, and cells with the same pair get the same
    key whatever their [s], [h], [walkable] and other fields are. *)
Theorem cellToHash_identity (c1 c2 : Cell.t) :
  SqrGrid.cellToHash c1 = SqrGrid.cellToHash c2 <->
  Cell.q c1 = Cell.q c2 /\ Cell.r c1 = Cell.r c2.
Proof.
  unfold SqrGrid.cellToHash. split.
  - apply hash_of_inj.
  - by intros [-> ->].
Qed.

(** ** The store: [add], [remove] and the cached count *)

Lemma add_add_at (H : heap) (g : SqrGrid.t) (l : loc) :
  fst (SqrGrid.add H g l) = add_at g (SqrGrid.cellToHash (deref H l), l).
Proof. unfold SqrGrid.add, add_at. simpl. by destruct (Obj.get _ _). Qed.

Lemma with_cells_id (g : SqrGrid.t) : SqrGrid.with_cells g (SqrGrid.cells g) (SqrGrid.numCells g) = g.
Proof. by destruct g. Qed.

Lemma with_cells_twice (g : SqrGrid.t) (cs cs' : Obj.t loc) (n n' : Z) :
  SqrGrid.with_cells (SqrGrid.with_cells g cs n) cs' n' = SqrGrid.with_cells g cs' n'.
Proof. done. Qed.

Lemma add_at_counted (g : SqrGrid.t) (kl : string * loc) :
  counted g -> counted (add_at g kl).
Proof.
  intros [Hnd Hn]. unfold add_at, SqrGrid.with_cells, counted.
  destruct (Obj.get _ _) eqn:Hg; simpl; [done|].
  rewrite (obj_set_absent _ _ _ Hg). split.
  - unfold Obj.keys. rewrite map_app. simpl.
    apply NoDup_app. split; [done|]. split.
    + intros k Hk Hk'. apply list_elem_of_singleton in Hk' as ->.
      by apply obj_get_None in Hg.
    + apply NoDup_singleton.
  - rewrite length_app. simpl. lia.
Qed.

Lemma add_counted (H : heap) (g : SqrGrid.t) (cell : loc) :
  counted g -> counted (fst (SqrGrid.add H g cell)).
Proof. rewrite add_add_at. apply add_at_counted. Qed.

Lemma remove_counted (H : heap) (g : SqrGrid.t) (cell : loc) :
  counted g -> counted (SqrGrid.remove H g cell).
Proof.
  intros [Hnd Hn]. unfold SqrGrid.remove, SqrGrid.with_cells, counted.
  destruct (Obj.get _ _) eqn:Hg; simpl; [|done].
  split; simpl.
  - by apply obj_delete_NoDup.
  - pose proof (obj_delete_length _ _ _ Hnd Hg). lia.
Qed.

Lemma run_counted (g : SqrGrid.t) (ops : list (heap * op)) :
  counted g -> counted (run g ops).
Proof.
  revert g. induction ops as [|[H [c|c]] ops IH]; intros g Hg; simpl; [done|..].
  - apply IH. by apply add_counted.
  - apply IH. by apply remove_counted.
Qed.

Lemma new_counted (H : heap) (cfg : option Q) : counted (snd (SqrGrid.new H cfg)).
Proof. split; simpl; [apply NoDup_nil_2 | done]. Qed.

Lemma obj_delete_Forall {V : Type} (P : string * V -> Prop) (o : Obj.t V) (k : string) :
  Forall P o -> Forall P (Obj.delete o k).
Proof.
  induction 1 as [|[k' v'] o HP _ IH]; simpl; [constructor|].
  destruct (String.eqb k' k); [done | by constructor].
Qed.

Lemma add_keyed (H : heap) (g : SqrGrid.t) (cell : loc) :
  keyed H g -> keyed H (fst (SqrGrid.add H g cell)).
Proof.
  unfold keyed, SqrGrid.add. intros Hk.
  destruct (Obj.get _ _) eqn:Hg; simpl; [done|].
  rewrite (obj_set_absent _ _ _ Hg). apply Forall_app. split; [done|].
  by constructor.
Qed.

Lemma remove_keyed (H : heap) (g : SqrGrid.t) (cell : loc) :
  keyed H g -> keyed H (SqrGrid.remove H g cell).
Proof.
  unfold keyed, SqrGrid.remove. intros Hk.
  destruct (Obj.get _ _); simpl; [|done]. by apply obj_delete_Forall.
Qed.

(** When the coordinates of the cells are not changed between the calls (all
    calls see the cells as [H] has them), [add] and [remove] keep every stored
    cell under the key of its coordinates. *)
Lemma run_keyed (H : heap) (g : SqrGrid.t) (ops : list (heap * op)) :
  Forall (fun o => fst o = H) ops -> keyed H g -> keyed H (run g ops).
Proof.
  intros Hops. revert g.
  induction Hops as [|[H' [c|c]] ops Heq _ IH]; intros g Hk; simpl in *;
    [done|subst H'..].
  - apply IH. by apply add_keyed.
  - apply IH. by apply remove_keyed.
Qed.

Lemma traverse_visits (g : SqrGrid.t) :
  NoDup (Obj.keys (SqrGrid.cells g)) ->
  SqrGrid.traverse g (fun c visited => visited ++ [c]) [] =
  map (fun kv => Some (snd kv)) (SqrGrid.cells g).
Proof.
  intros Hnd. unfold SqrGrid.traverse.
  rewrite (obj_for_in_entries (SqrGrid.cells g) (fun _ c visited => visited ++ [c]) [] Hnd).
  by rewrite (fold_left_snoc (fun kv => Some (snd kv))).
Qed.

Lemma traverse_counts (g : SqrGrid.t) (n : Z) :
  SqrGrid.traverse g (fun _ n => n + 1) n = n + Z.of_nat (length (SqrGrid.cells g)).
Proof.
  unfold SqrGrid.traverse, Obj.for_in, Obj.keys.
  rewrite <- (length_map fst (SqrGrid.cells g)).
  generalize (map fst (SqrGrid.cells g)). intros ks. revert n.
  induction ks as [|k ks IH]; intros n; simpl; [lia|].
  rewrite IH. lia.
Qed.

(** C1: start from a freshly built grid and perform any finite sequence of
    [add] and [remove] calls, with any cells (also cells whose key is already
    stored, and removals of cells that are not stored).  Then [numCells] is the
    number of entries of [cells]; a traversal calls its callback once for each
    stored cell, in the order of the store; so the number of calls is
    [numCells]. *)
Theorem numCells_counts_cells (H0 : heap) (cfg : option Q) (ops : list (heap * op)) :
  let g := run (snd (SqrGrid.new H0 cfg)) ops in
  SqrGrid.numCells g = Z.of_nat (length (SqrGrid.cells g))
  /\ SqrGrid.traverse g (fun c visited => visited ++ [c]) [] =
     map (fun kv => Some (snd kv)) (SqrGrid.cells g)
  /\ SqrGrid.traverse g (fun _ n => n + 1) 0 = SqrGrid.numCells g.
Proof.
  intros g.
  destruct (run_counted (snd (SqrGrid.new H0 cfg)) ops (new_counted H0 cfg))
    as [Hnd Hn].
  fold g in Hnd, Hn. split; [done|]. split.
  - by apply traverse_visits.
  - rewrite traverse_counts. lia.
Qed.

(** C4: [add] looks at the key of the cell.  If the key is occupied, [add]
    returns nothing and the grid it leaves is the grid it found: the store maps
    every key to the cell it mapped it to before and [numCells] is not
    incremented ([add] writes to no cell, so the stored cell keeps its fields,
    for instance its height).  If the key is free, [add] returns the cell, puts
    it under its key after the entries already there and increments [numCells]
    by one; no other key changes. *)
Theorem add_occupied_or_free (H : heap) (g : SqrGrid.t) (cell : loc) :
  let k := SqrGrid.cellToHash (deref H cell) in
  (forall old, Obj.get (SqrGrid.cells g) k = Some old ->
     SqrGrid.add H g cell = (g, None))
  /\ (Obj.get (SqrGrid.cells g) k = None ->
      let g' := fst (SqrGrid.add H g cell) in
      snd (SqrGrid.add H g cell) = Some cell
      /\ SqrGrid.cells g' = SqrGrid.cells g ++ [(k, cell)]
      /\ SqrGrid.numCells g' = SqrGrid.numCells g + 1
      /\ Obj.get (SqrGrid.cells g') k = Some cell
      /\ forall k', k' <> k ->
           Obj.get (SqrGrid.cells g') k' = Obj.get (SqrGrid.cells g) k').
Proof.
  intros k. split.
  - intros old Hold. unfold SqrGrid.add. fold k. by rewrite Hold.
  - intros Hfree. unfold SqrGrid.add. fold k. rewrite Hfree. simpl.
    rewrite (obj_set_absent _ _ _ Hfree).
    repeat split; try done.
    + rewrite obj_get_app, Hfree. simpl. by rewrite String.eqb_refl.
    + intros k' Hk'. rewrite obj_get_app.
      destruct (Obj.get (SqrGrid.cells g) k'); [done|]. simpl.
      by apply not_eq_sym, String.eqb_neq in Hk' as ->.
Qed.

(** The example of the spec: the store holds a cell at [(0, 0)] with height 5;
    adding another cell at [(0, 0)] with height 9 changes nothing. *)
Lemma add_occupied_example :
  let H := fst one_cell_grid in
  let g := snd one_cell_grid in
  Obj.get (SqrGrid.cells g) (SqrGrid.cellToHash (deref H 2%nat)) = Some 1%nat
  /\ Cell.h (deref H 2%nat) = 9
  /\ SqrGrid.add H g 2%nat = (g, None)
  /\ Cell.h (deref H 1%nat) = 5
  /\ SqrGrid.numCells g = 1.
Proof.
  intros H g.
  assert (Hocc : Obj.get (SqrGrid.cells g) (SqrGrid.cellToHash (deref H 2%nat))
                 = Some 1%nat) by (vm_compute; reflexivity).
  split; [exact Hocc|]. split; [reflexivity|]. split.
  - exact (proj1 (add_occupied_or_free H g 2%nat) 1%nat Hocc).
  - split; reflexivity.
Defined.

(** ** Distance and world positions *)

(** The distance adds the signed difference of the heights, so it is not
    symmetric: from [(0,0)] at height 0 to [(0,1)] at height 3 it is 4, and
    back it is -2. *)
Example distance_asymmetric :
  SqrGrid.distance (cell_at 0 0 0) (cell_at 0 1 3) = 4
  /\ SqrGrid.distance (cell_at 0 1 3) (cell_at 0 0 0) = -2.
Proof. split; reflexivity. Qed.



Lemma deref_store_eq (H : heap) (l : loc) (c : Cell.t) : deref (store H l c) l = c.
Proof. unfold deref, store. simpl. by rewrite Nat.eqb_refl. Qed.

Lemma deref_store_ne (H : heap) (l l' : loc) (c : Cell.t) :
  l' <> l -> deref (store H l c) l' = deref H l'.
Proof. intros Hne. unfold deref, store. simpl. by apply Nat.eqb_neq in Hne as ->. Qed.

(** The constructor derives [_fullCellSize] from [cellSize]: it is zero only
    for [cellSize: 0]. *)
Lemma new_fullCellSize (H : heap) (cfg : option Q) :
  let g := snd (SqrGrid.new H cfg) in
  SqrGrid._fullCellSize g = (SqrGrid.cellSize g * 2)%Q
  /\ ((SqrGrid._fullCellSize g == 0)%Q <-> (SqrGrid.cellSize g == 0)%Q).
Proof.
  simpl. split; [done|]. split; intros Hz.
  - apply Qmult_integral in Hz as [Hz|Hz]; [done | discriminate Hz].
  - by rewrite Hz.
Qed.




(** ** Neighbours *)

Lemma obj_get_Forall {V : Type} (P : string * V -> Prop) (o : Obj.t V) (k : string) (v : V) :
  Forall P o -> Obj.get o k = Some v -> P (k, v).
Proof.
  intros HP Hg. apply obj_get_Some_In in Hg.
  rewrite Forall_forall in HP. by apply HP.
Qed.

(** One round of the loop, for a cell that is not the scratch cell: outside the
    scratch cell the heap stays what it was, and the list grows by the neighbour
    at the offset, if any. *)
Lemma probe_spec (H Hc : heap) (g : SqrGrid.t) (cell : loc)
    (filter : option (Cell.t -> Cell.t -> bool)) (lst : list loc) (d : Cell.t) :
  cell <> SqrGrid._cel g ->
  scratch_apart g ->
  (forall l, l <> SqrGrid._cel g -> deref Hc l = deref H l) ->
  let st := SqrGrid.probe g cell filter (Hc, lst) d in
  (forall l, l <> SqrGrid._cel g -> deref (fst st) l = deref H l)
  /\ snd st = lst ++ match neighbour_at H g cell filter (Cell.q d, Cell.r d) with
                     | Some n => [n]
                     | None => []
                     end.
Proof.
  intros Hcell Hapart Hagree. unfold SqrGrid.probe.
  set (H1 := store Hc _ _). set (H2 := store H1 _ _).
  assert (Hagree2 : forall l, l <> SqrGrid._cel g -> deref H2 l = deref H l).
  { intros l Hl. unfold H2, H1. rewrite !deref_store_ne by done. by apply Hagree. }
  assert (Hkey : SqrGrid.cellToHash (deref H2 (SqrGrid._cel g)) =
                 SqrGrid.hash_of (Cell.q (deref H cell) + Cell.q d)
                                 (Cell.r (deref H cell) + Cell.r d)).
  { unfold H2, H1. rewrite !deref_store_eq. unfold SqrGrid.cellToHash. simpl.
    by rewrite (Hagree cell Hcell). }
  rewrite Hkey. unfold neighbour_at. cbn [fst snd].
  destruct (Obj.get _ _) as [n|] eqn:Hget.
  - assert (Hn : n <> SqrGrid._cel g).
    { apply (obj_get_Forall _ _ _ _ Hapart Hget). }
    destruct filter as [f|].
    + rewrite (Hagree2 cell Hcell), (Hagree2 n Hn).
      destruct (f _ _); cbn [fst snd]; split; try done; by rewrite ?app_nil_r.
    + cbn [fst snd]. by split.
  - cbn [fst snd]. split; [done | by rewrite app_nil_r].
Qed.

Lemma probe_loop_spec (H : heap) (g : SqrGrid.t) (cell : loc)
    (filter : option (Cell.t -> Cell.t -> bool)) (ds : list Cell.t) :
  cell <> SqrGrid._cel g ->
  scratch_apart g ->
  forall (Hc : heap) (lst : list loc),
  (forall l, l <> SqrGrid._cel g -> deref Hc l = deref H l) ->
  let st := fold_left (SqrGrid.probe g cell filter) ds (Hc, lst) in
  (forall l, l <> SqrGrid._cel g -> deref (fst st) l = deref H l)
  /\ snd st = lst ++ omap (neighbour_at H g cell filter)
                          (map (fun d => (Cell.q d, Cell.r d)) ds).
Proof.
  intros Hcell Hapart. induction ds as [|d ds IH]; intros Hc lst Hagree.
  - simpl. split; [exact Hagree | by rewrite app_nil_r].
  - cbn [fold_left].
    destruct (probe_spec H Hc g cell filter lst d Hcell Hapart Hagree) as [Ha Hl].
    destruct (SqrGrid.probe g cell filter (Hc, lst) d) as [Hc' lst'] eqn:Hp.
    cbn [fst snd] in Ha, Hl. destruct (IH Hc' lst' Ha) as [Ha' Hl'].
    split; [exact Ha'|]. rewrite Hl', Hl, <- app_assoc. f_equal. simpl.
    by destruct (neighbour_at _ _ _ _ _).
Qed.




(** ** Random selection *)

(** The loop, started with the entries [suf] still to come after [pre]: it
    stops at position [x] if there is one, and otherwise falls through to the
    lookup of the last key. *)
Lemma getRandomCell_loop_spec (o : Obj.t loc) (x : Z) :
  NoDup (Obj.keys o) ->
  forall (suf pre : Obj.t loc) (i : Z),
  o = pre ++ suf -> i = Z.of_nat (length pre) -> i <= x ->
  SqrGrid.getRandomCell_loop o (Obj.keys suf) i x (last (Obj.keys pre)) =
  match suf !! Z.to_nat (x - i) with
  | Some kl => Some (snd kl)
  | None => Obj.get o (match last (Obj.keys o) with
                       | Some k => k
                       | None => "undefined"%string
                       end)
  end.
Proof.
  intros Hnd. induction suf as [|[k l] suf IH]; intros pre i Ho Hi Hx.
  - rewrite app_nil_r in Ho. subst o. simpl. done.
  - cbn [Obj.keys map fst SqrGrid.getRandomCell_loop].
    destruct (Z.eqb_spec i x) as [->|Hne].
    + rewrite Z.sub_diag. simpl. apply obj_In_get; [done|].
      rewrite Ho. apply elem_of_app. right. apply list_elem_of_here.
    + replace (Some k) with (last (Obj.keys (pre ++ [(k, l)]))).
      2:{ unfold Obj.keys. rewrite map_app. simpl. by rewrite last_snoc. }
      fold (Obj.keys suf).
      rewrite (IH (pre ++ [(k, l)]) (i + 1)).
      * replace (Z.to_nat (x - i)) with (S (Z.to_nat (x - (i + 1)))) by lia. done.
      * by rewrite <- app_assoc.
      * rewrite length_app. simpl. lia.
      * lia.
Qed.

(** C10: on a consistent grid with a non-empty store, [getRandomCell] returns a
    stored cell for every index [x] from 0 up to and including [numCells]: for
    [x] below [numCells] the cell at position [x] of the enumeration, and for
    [x] equal to [numCells] the last cell of the enumeration, which the
    [return] after the loop produces. *)
Theorem getRandomCell_in_store (g : SqrGrid.t) (x : Z) :
  counted g ->
  SqrGrid.cells g <> [] ->
  0 <= x <= SqrGrid.numCells g ->
  exists k l,
    SqrGrid.getRandomCell g x = Return (Some l)
    /\ Obj.get (SqrGrid.cells g) k = Some l
    /\ (x < SqrGrid.numCells g -> SqrGrid.cells g !! Z.to_nat x = Some (k, l))
    /\ (x = SqrGrid.numCells g -> last (SqrGrid.cells g) = Some (k, l)).
Proof.
  intros [Hnd Hn] Hne Hx. unfold SqrGrid.getRandomCell.
  change None with (last (Obj.keys (@nil (string * loc)))).
  rewrite (getRandomCell_loop_spec (SqrGrid.cells g) x Hnd (SqrGrid.cells g) [] 0)
    by (done || lia).
  rewrite Z.sub_0_r.
  destruct (SqrGrid.cells g !! Z.to_nat x) as [[k l]|] eqn:Hlk.
  - exists k, l. split; [done|]. split.
    + apply obj_In_get; [done|]. by eapply list_elem_of_lookup_2.
    + split; [done|]. intros ->. apply lookup_lt_Some in Hlk. lia.
  - apply lookup_ge_None in Hlk.
    destruct (last (SqrGrid.cells g)) as [[k l]|] eqn:Hlast.
    2:{ apply last_None in Hlast. done. }
    exists k, l.
    assert (Hk : last (Obj.keys (SqrGrid.cells g)) = Some k).
    { unfold Obj.keys. change (map fst) with (fmap (M:=list) (@fst string loc)).
      rewrite fmap_last, Hlast. done. }
    rewrite Hk.
    assert (Hget : Obj.get (SqrGrid.cells g) k = Some l).
    { apply obj_In_get; [done|]. apply last_Some in Hlast as [l' ->].
      apply elem_of_app. right. apply list_elem_of_here. }
    rewrite Hget. repeat split; try done. intros ?. lia.
Qed.

(** The nine cells: index 9, one past the last position, yields the last cell
    (location 9). *)
Lemma getRandomCell_3x3 :
  let g := snd grid3x3 in
  (counted g /\ SqrGrid.cells g <> [] /\ 0 <= 9 <= SqrGrid.numCells g)
  /\ SqrGrid.getRandomCell g 9 = Return (Some 9%nat).
Proof.
  intros g.
  assert (Hc : counted g).
  { split; [|reflexivity]. by_computation. }
  assert (Hne : SqrGrid.cells g <> []) by (vm_compute; discriminate).
  assert (Hx : 0 <= 9 <= SqrGrid.numCells g) by (vm_compute; split; discriminate).
  split; [done|].
  destruct (getRandomCell_in_store g 9 Hc Hne Hx) as (k & l & -> & _ & _ & Hlast).
  specialize (Hlast eq_refl). vm_compute in Hlast. by injection Hlast as _ <-.
Defined.

(** C9, as the code has it: on an empty store [getRandomCell] raises nothing.
    The loop body never runs, the loop variable stays [undefined], and the call
    returns [this.cells[undefined]], which is [undefined], whatever index was
    drawn. *)
Theorem getRandomCell_empty_store (g : SqrGrid.t) (x : Z) :
  SqrGrid.cells g = [] -> SqrGrid.getRandomCell g x = Return None.
Proof.
  intros Hempty. unfold SqrGrid.getRandomCell.
  rewrite Hempty. reflexivity.
Qed.

Lemma getRandomCell_fresh_grid :
  SqrGrid.cells (snd fresh_grid) = []
  /\ SqrGrid.getRandomCell (snd fresh_grid) 0 = Return None.
Proof.
  assert (He : SqrGrid.cells (snd fresh_grid) = []) by reflexivity.
  split; [exact He|]. exact (getRandomCell_empty_store (snd fresh_grid) 0 He).
Defined.

(** On a freshly built grid [numCells] is 0, the index drawn is 0, and the call
    returns normally: no exception is thrown. *)
Lemma getRandomCell_does_not_fail :
  SqrGrid.numCells (snd fresh_grid) = 0
  /\ SqrGrid.getRandomCell (snd fresh_grid) 0 = Return None
  /\ ~ (exists e, SqrGrid.getRandomCell (snd fresh_grid) 0 = Throw e).
Proof.
  split; [reflexivity|]. split; [reflexivity|]. intros [e He]. discriminate He.
Qed.

(** ** Building cells in a loop: [fromJSON] and [generate] *)

(** A loop of allocating steps: the new cells sit at consecutive locations, older
    cells are untouched, and the store receives the new cells one by one. *)
Lemma fold_allocates {A : Type} (stp : heap * SqrGrid.t -> A -> heap * SqrGrid.t)
    (val : A -> Cell.t) :
  allocates stp val ->
  forall (xs : list A) (H : heap) (g : SqrGrid.t),
  let st := fold_left stp xs (H, g) in
  let ls := seq (next H) (length xs) in
  next (fst st) = (next H + length xs)%nat
  /\ map (deref (fst st)) ls = map val xs
  /\ (forall l, (l < next H)%nat -> deref (fst st) l = deref H l)
  /\ snd st = fold_left add_at (zip (map (fun a => SqrGrid.cellToHash (val a)) xs) ls) g.
Proof.
  intros Hs. induction xs as [|a xs IH]; intros H g.
  - simpl. repeat split; (done || lia).
  - cbn [fold_left length seq map].
    destruct (Hs H g a) as (Hn & Hv & Hfr & Hg).
    destruct (stp (H, g) a) as [H1 g1]. cbn [fst snd] in Hn, Hv, Hfr, Hg.
    destruct (IH H1 g1) as (Hn' & Hv' & Hfr' & Hg').
    rewrite Hn in Hn', Hv', Hfr', Hg'.
    split; [lia|]. split; [|split].
    + f_equal; [|done]. rewrite Hfr' by lia. done.
    + intros l Hl. rewrite Hfr' by lia. apply Hfr. lia.
    + rewrite Hg', Hg. done.
Qed.

(** New keys, all different and none of them in the store: the entries are
    appended in order. *)
Lemma add_at_fold_fresh (kls : list (string * loc)) :
  forall g,
  NoDup (map fst kls) ->
  (forall k, k ∈ map fst kls -> k ∉ Obj.keys (SqrGrid.cells g)) ->
  fold_left add_at kls g =
  SqrGrid.with_cells g (SqrGrid.cells g ++ kls)
                     (SqrGrid.numCells g + Z.of_nat (length kls)).
Proof.
  induction kls as [|[k l] kls IH]; intros g Hnd Hfresh.
  - simpl. rewrite app_nil_r, Z.add_0_r. by rewrite with_cells_id.
  - cbn [fold_left]. simpl in Hnd. apply NoDup_cons in Hnd as [Hk Hnd].
    assert (Hget : Obj.get (SqrGrid.cells g) k = None).
    { apply obj_get_None, Hfresh. simpl. apply list_elem_of_here. }
    unfold add_at at 2. cbn [fst snd]. rewrite Hget.
    rewrite (obj_set_absent _ _ _ Hget). rewrite IH; [| done |].
    + rewrite with_cells_twice. cbn [SqrGrid.with_cells SqrGrid.cells SqrGrid.numCells].
      rewrite <- app_assoc. simpl. f_equal. lia.
    + intros k' Hk'. cbn [SqrGrid.with_cells SqrGrid.cells].
      unfold Obj.keys. rewrite map_app. simpl.
      rewrite not_elem_of_app. split.
      * apply Hfresh. simpl. by apply list_elem_of_further.
      * rewrite list_elem_of_singleton. intros ->. done.
Qed.

Lemma deref_alloc_eq (H : heap) (c : Cell.t) : deref (fst (alloc H c)) (next H) = c.
Proof. unfold deref, alloc. simpl. by rewrite Nat.eqb_refl. Qed.

Lemma deref_alloc_ne (H : heap) (c : Cell.t) (l : loc) : l <> next H -> deref (fst (alloc H c)) l = deref H l.
Proof. intros Hne. unfold deref, alloc. simpl. by apply Nat.eqb_neq in Hne as ->. Qed.

Lemma load_cell_allocates : allocates SqrGrid.load_cell load_value.
Proof.
  intros H g d. unfold SqrGrid.load_cell.
  destruct (alloc H (Cell.new 0 0 0)) as [H1 c] eqn:Ha.
  assert (Hc : c = next H) by (by injection Ha as _ <-).
  assert (HH1 : H1 = fst (alloc H (Cell.new 0 0 0))) by (by rewrite Ha).
  subst c. cbn [fst snd]. split; [|split; [|split]].
  - rewrite HH1. done.
  - rewrite deref_store_eq, HH1, deref_alloc_eq. done.
  - intros l Hl. rewrite deref_store_ne by done. rewrite HH1. by apply deref_alloc_ne.
  - rewrite add_add_at, deref_store_eq, HH1, deref_alloc_eq. done.
Qed.

Lemma generate_cell_allocates :
  allocates (fun st xy => SqrGrid.generate_cell (fst xy) (snd xy) st)
            (fun xy => Cell.new (fst xy) (snd xy + 1) 0).
Proof.
  intros H g [x y]. unfold SqrGrid.generate_cell. cbn [fst snd].
  destruct (alloc H (Cell.new x (y + 1) 0)) as [H1 c] eqn:Ha.
  assert (Hc : c = next H) by (by injection Ha as _ <-).
  assert (HH1 : H1 = fst (alloc H (Cell.new x (y + 1) 0))) by (by rewrite Ha).
  subst c. cbn [fst snd]. rewrite add_add_at, HH1.
  split; [done|]. split; [apply deref_alloc_eq|]. split.
  - intros l Hl. by apply deref_alloc_ne.
  - by rewrite deref_alloc_eq.
Qed.

Lemma for_range_nested {S : Type} (lo hi lo' hi' : Z) (f : Z -> Z -> S -> S) (s0 : S) :
  for_range lo hi (fun x s => for_range lo' hi' (fun y s' => f x y s') s) s0 =
  fold_left (fun s xy => f (fst xy) (snd xy) s)
            (list_prod (seqZ lo (hi - lo)) (seqZ lo' (hi' - lo'))) s0.
Proof.
  unfold for_range. generalize (seqZ lo (hi - lo)) as xs.
  generalize (seqZ lo' (hi' - lo')) as ys. intros ys xs. revert s0.
  induction xs as [|x xs IH]; intros s0; simpl; [done|].
  rewrite fold_left_app, <- IH. f_equal. clear IH.
  revert s0. induction ys as [|y ys IHy]; intros s; simpl; [done|].
  apply IHy.
Qed.

(** ** Save and load *)

Lemma toJSON_cells (H : heap) (g : SqrGrid.t) :
  NoDup (Obj.keys (SqrGrid.cells g)) ->
  Json.cells (SqrGrid.toJSON H g) = Some (stored_records H g).
Proof.
  intros Hnd. unfold SqrGrid.toJSON, stored_records. simpl. f_equal.
  rewrite (obj_for_in_entries (SqrGrid.cells g)
             (fun _ c acc => match c with
                             | Some c => acc ++ [Cell.fields (deref H c)]
                             | None => acc
                             end) [] Hnd).
  by rewrite (fold_left_snoc (fun kv => Cell.fields (deref H (snd kv)))).
Qed.


Lemma fields_load_value (d : Cell.data) : Cell.fields (load_value d) = d.
Proof. by destruct d. Qed.

Lemma load_value_scratch (d : Cell.data) : scratch_clear (load_value d).
Proof. by repeat split. Qed.

(** What [fromJSON] does with a record that has its [cells]. *)
Lemma fromJSON_cells (H : heap) (g : SqrGrid.t) (j : Json.t) (ds : list Cell.data) :
  Json.cells j = Some ds ->
  let ls := seq (next H) (length ds) in
  let g1 := SqrGrid.mk (Json.size j) (Json.cellSize j) Obj.empty 0 (Json.extrudeSettings j)
              (Json.autogenerated j) (Json.cellSize j * 2)%Q
              (SqrGrid._list g) (SqrGrid._vec3 g) (SqrGrid._cel g) in
  exists H',
    SqrGrid.fromJSON H g j =
      (H', fold_left add_at (zip (map data_hash ds) ls) g1, Return tt)
    /\ map (deref H') ls = map load_value ds
    /\ (forall l, (l < next H)%nat -> deref H' l = deref H l).
Proof.
  intros Hds ls g1. unfold SqrGrid.fromJSON. rewrite Hds. fold g1.
  destruct (fold_allocates _ _ load_cell_allocates ds H g1) as (_ & Hv & Hfr & Hg).
  destruct (fold_left SqrGrid.load_cell ds (H, g1)) as [H' g'].
  cbn [fst snd] in Hv, Hfr, Hg. exists H'. by rewrite Hg.
Qed.

Lemma Forall_zip_deref (H' : heap) (ds : list Cell.data) :
  forall ls, map (deref H') ls = map load_value ds ->
  Forall (fun kl => fst kl = SqrGrid.cellToHash (deref H' (snd kl))
                    /\ scratch_clear (deref H' (snd kl)))
         (zip (map data_hash ds) ls).
Proof.
  induction ds as [|d ds IH]; intros [|l ls] Hm; simpl; try by constructor.
  injection Hm as Hd Hm. constructor; [|by apply IH].
  simpl. rewrite Hd. split; [done | apply load_value_scratch].
Qed.



(** ** Loading any record *)

Lemma add_at_get (g : SqrGrid.t) (kl : string * loc) (k : string) :
  Obj.get (SqrGrid.cells (add_at g kl)) k = Obj.get (SqrGrid.cells g ++ [kl]) k.
Proof.
  unfold add_at. rewrite obj_get_app. destruct kl as [k0 l0]. cbn [fst snd].
  destruct (Obj.get (SqrGrid.cells g) k0) eqn:Hg0.
  - destruct (Obj.get (SqrGrid.cells g) k) eqn:Hgk; [done|]. simpl.
    destruct (String.eqb_spec k0 k) as [->|_]; [congruence | done].
  - cbn [SqrGrid.with_cells SqrGrid.cells].
    by rewrite (obj_set_absent _ _ _ Hg0), obj_get_app.
Qed.

Lemma add_at_entries (g : SqrGrid.t) (kl e : string * loc) :
  e ∈ SqrGrid.cells (add_at g kl) -> e ∈ SqrGrid.cells g \/ e = kl.
Proof.
  unfold add_at. destruct (Obj.get _ _) eqn:Hg; [by left|].
  cbn [SqrGrid.with_cells SqrGrid.cells]. rewrite (obj_set_absent _ _ _ Hg).
  rewrite elem_of_app, list_elem_of_singleton. destruct kl. done.
Qed.

Lemma add_at_frame (g : SqrGrid.t) (kl : string * loc) :
  add_at g kl =
  SqrGrid.with_cells g (SqrGrid.cells (add_at g kl)) (SqrGrid.numCells (add_at g kl)).
Proof.
  unfold add_at. destruct (Obj.get _ _); [by rewrite with_cells_id | done].
Qed.

(** Any keys: the store stays consistent, a lookup finds the first entry for its
    key, and nothing but [cells] and [numCells] changes. *)
Lemma add_at_fold (kls : list (string * loc)) :
  forall g, counted g ->
  let g' := fold_left add_at kls g in
  counted g'
  /\ (forall k, Obj.get (SqrGrid.cells g') k = Obj.get (SqrGrid.cells g ++ kls) k)
  /\ (forall e, e ∈ SqrGrid.cells g' -> e ∈ SqrGrid.cells g \/ e ∈ kls)
  /\ g' = SqrGrid.with_cells g (SqrGrid.cells g') (SqrGrid.numCells g').
Proof.
  induction kls as [|kl kls IH]; intros g Hc.
  - simpl. rewrite app_nil_r, with_cells_id.
    split; [done|]. split; [done|]. split; [by left | done].
  - cbn [fold_left].
    destruct (IH (add_at g kl) (add_at_counted g kl Hc)) as (Hc' & Hget & Hin & Hfr).
    split; [done|]. split; [|split].
    + intros k. rewrite Hget, !obj_get_app, add_at_get, obj_get_app. simpl.
      destruct (Obj.get (SqrGrid.cells g) k); [done|].
      destruct kl as [k0 l0]. by destruct (String.eqb k0 k).
    + intros e He. apply Hin in He as [He|He].
      * apply add_at_entries in He as [He| ->]; [by left|].
        right. apply list_elem_of_here.
      * right. by apply list_elem_of_further.
    + rewrite Hfr at 1. rewrite (add_at_frame g kl) at 1. done.
Qed.

Lemma get_zip_find (H' : heap) (k : string) (ds : list Cell.data) :
  forall ls, map (deref H') ls = map load_value ds ->
  option_map (fun l => Cell.fields (deref H' l))
             (Obj.get (zip (map data_hash ds) ls) k) =
  find (fun d => String.eqb (data_hash d) k) ds.
Proof.
  induction ds as [|d ds IH]; intros [|l ls] Hm; simpl; try done.
  injection Hm as Hd Hm. destruct (String.eqb (data_hash d) k).
  - simpl. by rewrite Hd, fields_load_value.
  - by apply IH.
Qed.

(** C8, as the code has it: [fromJSON] validates nothing and has no error of
    its own.  Whatever the grid held before, a record that has its [cells] is
    loaded to the end without an exception, also one with a negative [cellSize]
    or with several cells at one [(q, r)]: [size] and [cellSize] are taken as
    they come, [_fullCellSize] is twice [cellSize], and the store, rebuilt from
    nothing, is consistent and holds under each key the first record that has
    this key. *)
Theorem fromJSON_no_validation (H : heap) (g : SqrGrid.t) (j : Json.t)
    (ds : list Cell.data) :
  Json.cells j = Some ds ->
  let '(H', g', res) := SqrGrid.fromJSON H g j in
  res = Return tt
  /\ SqrGrid.size g' = Json.size j
  /\ SqrGrid.cellSize g' = Json.cellSize j
  /\ SqrGrid._fullCellSize g' = (Json.cellSize j * 2)%Q
  /\ counted g'
  /\ keyed H' g'
  /\ forall k,
       option_map (fun l => Cell.fields (deref H' l)) (Obj.get (SqrGrid.cells g') k) =
       find (fun d => String.eqb (data_hash d) k) ds.
Proof.
  intros Hds.
  destruct (fromJSON_cells H g j ds Hds) as (H' & -> & Hv & _).
  set (ls := seq (next H) (length ds)) in *.
  set (g1 := SqrGrid.mk _ _ _ _ _ _ _ _ _ _).
  assert (Hc1 : counted g1) by (split; [apply NoDup_nil_2 | done]).
  destruct (add_at_fold (zip (map data_hash ds) ls) g1 Hc1) as (Hc & Hget & Hin & Hfr).
  pose proof (Forall_zip_deref H' ds ls Hv) as Hall.
  split; [done|]. rewrite Hfr. cbn [SqrGrid.with_cells SqrGrid.size SqrGrid.cellSize
    SqrGrid._fullCellSize]. rewrite <- Hfr.
  repeat split; try done; try apply Hc.
  - unfold keyed. apply Forall_forall. intros e He.
    apply Hin in He as [He|He]; [by apply elem_of_nil in He|].
    rewrite Forall_forall in Hall. by apply Hall.
  - intros k. rewrite Hget. simpl. by apply get_zip_find.
Qed.

(** A record with a negative [cellSize] and two cells at [(0, 0)] is loaded:
    the first of the two cells is kept. *)
Lemma fromJSON_twice_json :
  let H := fst one_cell_grid in
  let g := snd one_cell_grid in
  Json.cells twice_json = Some [Cell.mkData 0 0 0 1 true []; Cell.mkData 0 0 0 2 true []]
  /\ let '(H', g', res) := SqrGrid.fromJSON H g twice_json in
     res = Return tt
     /\ SqrGrid.numCells g' = 1
     /\ stored_records H' g' = [Cell.mkData 0 0 0 1 true []].
Proof.
  intros H g.
  assert (Hds : Json.cells twice_json =
                Some [Cell.mkData 0 0 0 1 true []; Cell.mkData 0 0 0 2 true []])
    by reflexivity.
  split; [exact Hds|].
  pose proof (fromJSON_no_validation H g twice_json _ Hds) as Hspec.
  destruct (SqrGrid.fromJSON H g twice_json) as [[H' g'] res] eqn:Hrun.
  destruct Hspec as (Hres & _). split; [exact Hres|].
  vm_compute in Hrun. injection Hrun as <- <- _. split; reflexivity.
Defined.

(** Two malformed records given to a grid that holds one cell.  The first, with
    a negative [cellSize] and a duplicate pair, is loaded without any error and
    replaces the grid's state.  The second, without [cells], makes the loop
    throw a [TypeError], after the store was emptied and [cellSize]
    overwritten. *)
Lemma fromJSON_malformed :
  let H := fst one_cell_grid in
  let g := snd one_cell_grid in
  (malformed twice_json
   /\ snd (SqrGrid.fromJSON H g twice_json) = Return tt
   /\ SqrGrid.cellSize g = 10%Q
   /\ SqrGrid.cellSize (snd (fst (SqrGrid.fromJSON H g twice_json))) = (-1)%Q)
  /\ (malformed no_cells_json
      /\ snd (SqrGrid.fromJSON H g no_cells_json)
         = Throw (TypeError "cells is undefined")
      /\ SqrGrid.numCells g = 1
      /\ SqrGrid.numCells (snd (fst (SqrGrid.fromJSON H g no_cells_json))) = 0
      /\ SqrGrid.cells (snd (fst (SqrGrid.fromJSON H g no_cells_json))) = []).
Proof.
  intros H g. split.
  - split; [left; reflexivity|]. repeat split; vm_compute; reflexivity.
  - split; [right; left; reflexivity|]. repeat split; vm_compute; reflexivity.
Qed.

(** ** Generation *)

Lemma stored_pairs_zip (H' : heap) (xs : list (Z * Z)) (ks : list string) (ls : list loc) :
  length ks = length ls ->
  map (deref H') ls = map (fun xy => Cell.new (fst xy) (snd xy + 1) 0) xs ->
  map (fun kv : string * loc => (Cell.q (deref H' (snd kv)), Cell.r (deref H' (snd kv))))
      (zip ks ls) = map (fun xy => (fst xy, snd xy + 1)) xs.
Proof.
  intros Hlen Hv.
  rewrite <- (map_map snd (fun l => (Cell.q (deref H' l), Cell.r (deref H' l)))).
  rewrite snd_zip by lia.
  rewrite <- (map_map (deref H') (fun c => (Cell.q c, Cell.r c))), Hv, map_map.
  done.
Qed.

(** C7, as the code has it: on a grid with an empty store,
    [generate({size: 5})] runs [x] and [y] from -3 up to and excluding 3 and
    builds the cell [(x, y + 1)]: the pairs [(q, r)] of the stored cells are
    exactly the product of [-3, 3) and [-2, 4), each pair once, 36 cells in
    all.  [size] becomes 5; [autogenerated] is left as it was. *)
Theorem generate_size_5 (H : heap) (g : SqrGrid.t) :
  SqrGrid.cells g = [] ->
  let '(H', g') := SqrGrid.generate H g (Some 5) in
  stored_pairs H' g' = list_prod (seqZ (-3) 6) (seqZ (-2) 6)
  /\ (forall q r, (q, r) ∈ stored_pairs H' g' <-> (-3 <= q < 3 /\ -2 <= r < 4))
  /\ NoDup (stored_pairs H' g')
  /\ SqrGrid.numCells g' = SqrGrid.numCells g + 36
  /\ SqrGrid.size g' = 5
  /\ SqrGrid.autogenerated g' = SqrGrid.autogenerated g.
Proof.
  intros Hempty. unfold SqrGrid.generate.
  set (g1 := SqrGrid.with_size g 5).
  change (Math_ceil (inject_Z (SqrGrid.size g1) / 2)) with 3.
  rewrite for_range_nested.
  set (xs := list_prod (seqZ (- (3)) (3 - - (3))) (seqZ (- (3)) (3 - - (3)))).
  destruct (fold_allocates _ _ generate_cell_allocates xs H g1) as (_ & Hv & _ & Hg).
  destruct (fold_left _ xs (H, g1)) as [H' g'].
  cbn [fst snd] in Hv, Hg.
  set (ks := map (fun a : Z * Z => SqrGrid.cellToHash (Cell.new (fst a) (snd a + 1) 0)) xs) in *.
  set (ls := seq (next H) (length xs)) in *.
  assert (Hkl : length ks = length ls).
  { unfold ks, ls. by rewrite length_map, length_seq. }
  assert (Hfst : map fst (zip ks ls) = ks) by (apply fst_zip; lia).
  assert (Hc1 : SqrGrid.cells g1 = []) by exact Hempty.
  rewrite add_at_fold_fresh in Hg.
  2:{ rewrite Hfst. by_computation. }
  2:{ intros k _. rewrite Hc1. apply not_elem_of_nil. }
  assert (Hpairs : stored_pairs H' g' = list_prod (seqZ (-3) 6) (seqZ (-2) 6)).
  { rewrite Hg. unfold stored_pairs, SqrGrid.with_cells. cbn [SqrGrid.cells].
    rewrite Hc1, app_nil_l.
    rewrite (stored_pairs_zip H' xs ks ls Hkl Hv). vm_compute. reflexivity. }
  split; [exact Hpairs|]. rewrite Hpairs. split; [|split; [|split]].
  - intros q r. rewrite list_elem_of_In, in_prod_iff, <- !list_elem_of_In, !elem_of_seqZ. lia.
  - by_computation.
  - rewrite Hg. unfold SqrGrid.with_cells. cbn [SqrGrid.numCells].
    rewrite length_zip_with, <- Hkl, Nat.min_id. unfold ks. rewrite length_map.
    change (length xs) with 36%nat. unfold g1. simpl. lia.
  - rewrite Hg. done.
Qed.

Lemma generate_size_5_fresh_grid :
  SqrGrid.cells (snd fresh_grid) = []
  /\ stored_pairs (fst generated5) (snd generated5)
     = list_prod (seqZ (-3) 6) (seqZ (-2) 6)
  /\ SqrGrid.numCells (snd generated5) = 36.
Proof.
  assert (He : SqrGrid.cells (snd fresh_grid) = []) by reflexivity.
  split; [exact He|].
  pose proof (generate_size_5 (fst fresh_grid) (snd fresh_grid) He) as Hspec.
  unfold generated5.
  destruct (SqrGrid.generate (fst fresh_grid) (snd fresh_grid) (Some 5)) as [H' g'].
  destruct Hspec as (Hp & _ & _ & Hn & _). split; [exact Hp | exact Hn].
Defined.

(** On a grid as the constructor leaves it, [generate({size: 5})] stores the
    cell [(2, 3)], which is outside the announced ranges, stores 36 cells and
    not 25, and leaves [autogenerated] false. *)
Lemma generate_size_5_not_as_announced :
  ((2, 3) ∈ stored_pairs (fst generated5) (snd generated5))
  /\ ((2, 3) ∉ announced_pairs)
  /\ length (stored_pairs (fst generated5) (snd generated5)) = 36%nat
  /\ length announced_pairs = 25%nat
  /\ SqrGrid.autogenerated (snd generated5) = false.
Proof.
  split; [|split].
  - by_computation.
  - by_computation.
  - repeat split; vm_compute; reflexivity.
Qed.

(** * Further properties of the code *)

(** ** The store *)




Lemma obj_delete_snoc {V : Type} (o : Obj.t V) (k : string) (v : V) :
  k ∉ Obj.keys o -> Obj.delete (o ++ [(k, v)]) k = o.
Proof.
  induction o as [|[k' v'] o IH]; simpl.
  - intros _. by rewrite String.eqb_refl.
  - rewrite not_elem_of_cons. intros [Hne Hk].
    destruct (String.eqb_spec k' k) as [->|_]; [done|]. by rewrite IH.
Qed.

(** X1: [remove] goes by the key of the cell it is given, not by the object.  If
    nothing is stored under that key the grid is left as it is.  If something
    is, whichever cell it is, that entry disappears, [numCells] goes down by
    one, and the other entries keep their cells and their order. *)
Theorem remove_stored_or_absent (H : heap) (g : SqrGrid.t) (cell : loc) :
  let k := SqrGrid.cellToHash (deref H cell) in
  (Obj.get (SqrGrid.cells g) k = None -> SqrGrid.remove H g cell = g)
  /\ (forall old, Obj.get (SqrGrid.cells g) k = Some old ->
      let g' := SqrGrid.remove H g cell in
      Obj.get (SqrGrid.cells g') k = None
      /\ SqrGrid.numCells g' = SqrGrid.numCells g - 1
      /\ Obj.keys (SqrGrid.cells g') = filter (fun k' => k' <> k) (Obj.keys (SqrGrid.cells g))
      /\ forall k', k' <> k ->
           Obj.get (SqrGrid.cells g') k' = Obj.get (SqrGrid.cells g) k').
Proof.
  intros k. split.
  - intros Hfree. unfold SqrGrid.remove. fold k. by rewrite Hfree.
  - intros old Hold. unfold SqrGrid.remove. fold k. rewrite Hold.
    unfold SqrGrid.with_cells. cbn [SqrGrid.cells SqrGrid.numCells].
    split; [|split; [done|split]].
    + rewrite obj_get_delete. by rewrite String.eqb_refl.
    + apply obj_keys_delete.
    + intros k' Hk'. rewrite obj_get_delete.
      by apply not_eq_sym, String.eqb_neq in Hk' as ->.
Qed.

(** Removing by a cell that is not stored but has the coordinates of a stored
    one (location 2 against the stored location 1) empties the store. *)
Lemma remove_by_coordinates :
  let H := fst one_cell_grid in
  let g := snd one_cell_grid in
  Obj.get (SqrGrid.cells g) (SqrGrid.cellToHash (deref H 2%nat)) = Some 1%nat
  /\ Obj.get (SqrGrid.cells (SqrGrid.remove H g 2%nat))
             (SqrGrid.cellToHash (deref H 2%nat)) = None
  /\ SqrGrid.numCells (SqrGrid.remove H g 2%nat) = SqrGrid.numCells g - 1.
Proof.
  intros H g.
  assert (Hocc : Obj.get (SqrGrid.cells g) (SqrGrid.cellToHash (deref H 2%nat))
                 = Some 1%nat) by (vm_compute; reflexivity).
  split; [exact Hocc|].
  destruct (proj2 (remove_stored_or_absent H g 2%nat) 1%nat Hocc) as (Hgone & Hn & _).
  split; [exact Hgone | exact Hn].
Defined.

(** X2: adding a cell whose key is free and removing it again gives back the
    grid exactly as it was. *)
Theorem add_then_remove (H : heap) (g : SqrGrid.t) (cell : loc) :
  Obj.get (SqrGrid.cells g) (SqrGrid.cellToHash (deref H cell)) = None ->
  SqrGrid.remove H (fst (SqrGrid.add H g cell)) cell = g.
Proof.
  intros Hfree. unfold SqrGrid.add. rewrite Hfree. cbn [fst].
  unfold SqrGrid.remove, SqrGrid.with_cells. cbn [SqrGrid.cells SqrGrid.numCells].
  rewrite (obj_set_absent _ _ _ Hfree), obj_get_app, Hfree. simpl Obj.get.
  rewrite String.eqb_refl.
  rewrite obj_delete_snoc by (by apply obj_get_None).
  replace (SqrGrid.numCells g + 1 - 1) with (SqrGrid.numCells g) by lia.
  by destruct g.
Qed.

Lemma add_then_remove_example :
  let H := fst one_cell_grid in
  let g := snd fresh_grid in
  Obj.get (SqrGrid.cells g) (SqrGrid.cellToHash (deref H 1%nat)) = None
  /\ SqrGrid.remove H (fst (SqrGrid.add H g 1%nat)) 1%nat = g.
Proof.
  intros H g.
  assert (Hfree : Obj.get (SqrGrid.cells g) (SqrGrid.cellToHash (deref H 1%nat)) = None)
    by reflexivity.
  split; [exact Hfree|]. exact (add_then_remove H g 1%nat Hfree).
Defined.

(** X3: removing by a cell whose key is occupied and adding that cell puts the
    cell under the key, whatever was there, and moves the entry to the end of
    the enumeration; [numCells] and the other entries are as before. *)
Theorem remove_then_add (H : heap) (g : SqrGrid.t) (cell old : loc) :
  let k := SqrGrid.cellToHash (deref H cell) in
  Obj.get (SqrGrid.cells g) k = Some old ->
  let g' := fst (SqrGrid.add H (SqrGrid.remove H g cell) cell) in
  SqrGrid.cells g' = Obj.delete (SqrGrid.cells g) k ++ [(k, cell)]
  /\ SqrGrid.numCells g' = SqrGrid.numCells g
  /\ Obj.get (SqrGrid.cells g') k = Some cell
  /\ forall k', k' <> k -> Obj.get (SqrGrid.cells g') k' = Obj.get (SqrGrid.cells g) k'.
Proof.
  intros k Hold. unfold SqrGrid.remove. fold k. rewrite Hold.
  unfold SqrGrid.add, SqrGrid.with_cells. cbn [SqrGrid.cells SqrGrid.numCells]. fold k.
  assert (Hgone : Obj.get (Obj.delete (SqrGrid.cells g) k) k = None).
  { rewrite obj_get_delete. by rewrite String.eqb_refl. }
  rewrite Hgone. cbn [fst SqrGrid.cells SqrGrid.numCells].
  rewrite (obj_set_absent _ _ _ Hgone).
  split; [done|]. split; [lia|]. split.
  - rewrite obj_get_app, Hgone. simpl. by rewrite String.eqb_refl.
  - intros k' Hk'. rewrite obj_get_app, obj_get_delete.
    pose proof Hk' as Hk2. apply not_eq_sym, String.eqb_neq in Hk2.
    rewrite Hk2. destruct (Obj.get (SqrGrid.cells g) k'); [done|]. simpl.
    by rewrite Hk2.
Qed.

Lemma remove_then_add_example :
  let H := fst one_cell_grid in
  let g := snd one_cell_grid in
  Obj.get (SqrGrid.cells g) (SqrGrid.cellToHash (deref H 2%nat)) = Some 1%nat
  /\ Obj.get (SqrGrid.cells (fst (SqrGrid.add H (SqrGrid.remove H g 2%nat) 2%nat)))
             (SqrGrid.cellToHash (deref H 2%nat)) = Some 2%nat
  /\ SqrGrid.numCells (fst (SqrGrid.add H (SqrGrid.remove H g 2%nat) 2%nat))
     = SqrGrid.numCells g.
Proof.
  intros H g.
  assert (Hocc : Obj.get (SqrGrid.cells g) (SqrGrid.cellToHash (deref H 2%nat))
                 = Some 1%nat) by (vm_compute; reflexivity).
  split; [exact Hocc|].
  destruct (remove_then_add H g 2%nat 1%nat Hocc) as (_ & Hn & Hget & _).
  split; [exact Hget | exact Hn].
Defined.

(** ** Distance *)



(** X6: between cells of equal height [distance] is the Chebyshev distance: it
    is symmetric, not negative, and 0 only between cells with the same
    [(q, r)]. *)
Theorem distance_level (a b : Cell.t) :
  Cell.h a = Cell.h b ->
  SqrGrid.distance a b = SqrGrid.distance b a
  /\ 0 <= SqrGrid.distance a b
  /\ (SqrGrid.distance a b = 0 <-> Cell.q a = Cell.q b /\ Cell.r a = Cell.r b).
Proof. unfold SqrGrid.distance. lia. Qed.

Lemma distance_level_example :
  Cell.h (cell_at 0 0 2) = Cell.h (cell_at 3 (-1) 2)
  /\ SqrGrid.distance (cell_at 0 0 2) (cell_at 3 (-1) 2) = 3
  /\ SqrGrid.distance (cell_at 3 (-1) 2) (cell_at 0 0 2) = 3.
Proof.
  assert (Hh : Cell.h (cell_at 0 0 2) = Cell.h (cell_at 3 (-1) 2)) by reflexivity.
  split; [exact Hh|].
  destruct (distance_level (cell_at 0 0 2) (cell_at 3 (-1) 2) Hh) as (Hsym & _).
  split; [reflexivity|]. rewrite <- Hsym. reflexivity.
Defined.

(** ** Positions and cells *)











(** ** Clearing the path finder's marks *)

Lemma clear_all_deref (ls : list loc) :
  forall (H : heap) (l : loc),
  deref (clear_all ls H) l =
  if bool_decide (l ∈ ls) then SqrGrid.clear_scratch (deref H l) else deref H l.
Proof.
  induction ls as [|l0 ls IH]; intros H l; [done|].
  unfold clear_all in *. cbn [fold_left]. rewrite IH.
  destruct (decide (l = l0)) as [->|Hne].
  - rewrite deref_store_eq. rewrite (bool_decide_eq_true_2 (l0 ∈ l0 :: ls)) by left.
    by destruct (bool_decide (l0 ∈ ls)).
  - rewrite deref_store_ne by done.
    destruct (decide (l ∈ ls)) as [Hin|Hout].
    + rewrite !bool_decide_eq_true_2; [done | by right | done].
    + rewrite !bool_decide_eq_false_2; [done | | done].
      rewrite not_elem_of_cons. done.
Qed.

Lemma clear_all_next (ls : list loc) (H : heap) : next (clear_all ls H) = next H.
Proof.
  revert H. induction ls as [|l0 ls IH]; intros H; [done|].
  unfold clear_all in *. cbn [fold_left]. by rewrite IH.
Qed.

Lemma fold_entries_values {S : Type} (f : loc -> S -> S) (o : Obj.t loc) (s0 : S) :
  fold_left (fun s (kv : string * loc) =>
               match Some (snd kv) with Some c => f c s | None => s end) o s0
  = fold_left (fun s l => f l s) (map snd o) s0.
Proof. revert s0. induction o as [|[k l] o IH]; intros s0; simpl; [done | apply IH]. Qed.

Lemma clearPath_clear_all (H : heap) (g : SqrGrid.t) :
  NoDup (Obj.keys (SqrGrid.cells g)) ->
  SqrGrid.clearPath H g = clear_all (map snd (SqrGrid.cells g)) H.
Proof.
  intros Hnd. unfold SqrGrid.clearPath, clear_all.
  rewrite (obj_for_in_entries (SqrGrid.cells g)
             (fun _ c H' => match c with
                            | Some c => store H' c (SqrGrid.clear_scratch (deref H' c))
                            | None => H'
                            end) H Hnd).
  apply (fold_entries_values (fun c H' => store H' c (SqrGrid.clear_scratch (deref H' c)))).
Qed.

Lemma toJSON_ext (H H' : heap) (g : SqrGrid.t) :
  (forall l, Cell.fields (deref H' l) = Cell.fields (deref H l)) ->
  SqrGrid.toJSON H' g = SqrGrid.toJSON H g.
Proof.
  intros Hf. unfold SqrGrid.toJSON. do 2 f_equal. unfold Obj.for_in.
  assert (Hgen : forall ks acc,
     fold_left (fun s k => match Obj.get (SqrGrid.cells g) k with
                           | Some c => s ++ [Cell.fields (deref H' c)]
                           | None => s
                           end) ks acc
     = fold_left (fun s k => match Obj.get (SqrGrid.cells g) k with
                             | Some c => s ++ [Cell.fields (deref H c)]
                             | None => s
                             end) ks acc).
  { induction ks as [|k ks IH]; intros acc; simpl; [done|].
    destruct (Obj.get (SqrGrid.cells g) k); [|apply IH]. rewrite Hf. apply IH. }
  apply Hgen.
Qed.

(** X10: [clearPath] puts the scratch fields of every stored cell in their zero
    state and changes nothing else: the coordinates, height, walkable flag and
    [userData] of every cell stay, cells outside the store are untouched, no
    cell is built, what [toJSON] writes is the same, and a second [clearPath]
    changes nothing more. *)
Theorem clearPath_spec (H : heap) (g : SqrGrid.t) :
  NoDup (Obj.keys (SqrGrid.cells g)) ->
  let H' := SqrGrid.clearPath H g in
  Forall (fun kv => scratch_clear (deref H' (snd kv))) (SqrGrid.cells g)
  /\ (forall l, Cell.fields (deref H' l) = Cell.fields (deref H l))
  /\ (forall l, l ∉ map snd (SqrGrid.cells g) -> deref H' l = deref H l)
  /\ next H' = next H
  /\ SqrGrid.toJSON H' g = SqrGrid.toJSON H g
  /\ (forall l, deref (SqrGrid.clearPath H' g) l = deref H' l).
Proof.
  intros Hnd H'.
  assert (Hd : forall H0 l, deref (SqrGrid.clearPath H0 g) l =
            if bool_decide (l ∈ map snd (SqrGrid.cells g))
            then SqrGrid.clear_scratch (deref H0 l) else deref H0 l).
  { intros H0 l. rewrite clearPath_clear_all by done. apply clear_all_deref. }
  assert (Hfields : forall l, Cell.fields (deref H' l) = Cell.fields (deref H l)).
  { intros l. unfold H'. rewrite Hd. by destruct (bool_decide _). }
  split; [|split; [exact Hfields|split; [|split; [|split]]]].
  - apply Forall_forall. intros [k l] Hin. cbn [snd]. unfold H'. rewrite Hd.
    rewrite bool_decide_eq_true_2; [by repeat split|].
    apply list_elem_of_In, in_map_iff. exists (k, l). split; [done|].
    by apply list_elem_of_In.
  - intros l Hl. unfold H'. rewrite Hd. by rewrite bool_decide_eq_false_2.
  - unfold H'. rewrite clearPath_clear_all by done. apply clear_all_next.
  - by apply toJSON_ext.
  - intros l. rewrite Hd. unfold H'. rewrite Hd.
    by destruct (bool_decide _).
Qed.


Lemma clearPath_example :
  let H := fst grid3x3_searched in
  let g := snd grid3x3_searched in
  NoDup (Obj.keys (SqrGrid.cells g))
  /\ Cell._visited (deref H 5%nat) = true
  /\ Forall (fun kv => scratch_clear (deref (SqrGrid.clearPath H g) (snd kv)))
            (SqrGrid.cells g).
Proof.
  intros H g.
  assert (Hnd : NoDup (Obj.keys (SqrGrid.cells g))) by by_computation.
  split; [exact Hnd|]. split; [reflexivity|].
  exact (proj1 (clearPath_spec H g Hnd)).
Defined.

(** ** Random selection outside the positions *)

Lemma getRandomCell_loop_below (cs : Obj.t loc) (x : Z) (ks : list string) :
  forall (i : Z) (c : option string),
  x < i ->
  SqrGrid.getRandomCell_loop cs ks i x c =
  Obj.get cs (match last ks, c with
              | Some k, _ => k
              | None, Some k => k
              | None, None => "undefined"%string
              end).
Proof.
  induction ks as [|k ks IH]; intros i c Hx; simpl; [by destruct c|].
  destruct (Z.eqb_spec i x) as [->|_]; [lia|].
  rewrite IH by lia. destruct ks as [|k' ks]; [done|].
  change (last (k :: k' :: ks)) with (last (k' :: ks)).
  destruct (last (k' :: ks)) eqn:E; [done | by apply last_None in E].
Qed.

Lemma obj_get_last {V : Type} (o : Obj.t V) :
  NoDup (Obj.keys o) ->
  Obj.get o (match last (Obj.keys o) with
             | Some k => k
             | None => "undefined"%string
             end) = snd <$> last o.
Proof.
  intros Hnd. destruct (last o) as [[k l]|] eqn:Hlast.
  - assert (Hk : last (Obj.keys o) = Some k).
    { unfold Obj.keys. change (map fst) with (fmap (M:=list) (@fst string V)).
      by rewrite fmap_last, Hlast. }
    rewrite Hk. simpl. apply obj_In_get; [done|].
    apply last_Some in Hlast as [o' ->]. apply elem_of_app. right. apply list_elem_of_here.
  - apply last_None in Hlast as ->. done.
Qed.

(** X11: on a consistent grid, an index that hits no position (a negative one,
    or one from [numCells] on) makes [getRandomCell] return the last cell of the
    enumeration, and [undefined] when the store is empty: the loop runs to its
    end and the final [return] reads the last key. *)
Theorem getRandomCell_out_of_range (g : SqrGrid.t) (x : Z) :
  counted g ->
  x < 0 \/ SqrGrid.numCells g <= x ->
  SqrGrid.getRandomCell g x = Return (snd <$> last (SqrGrid.cells g)).
Proof.
  intros [Hnd Hn] Hx. unfold SqrGrid.getRandomCell. f_equal.
  rewrite <- (obj_get_last _ Hnd).
  destruct (Z.ltb_spec x 0) as [Hneg|Hpos].
  - rewrite getRandomCell_loop_below by lia.
    by destruct (last (Obj.keys (SqrGrid.cells g))).
  - change None with (last (Obj.keys (@nil (string * loc)))).
    rewrite (getRandomCell_loop_spec (SqrGrid.cells g) x Hnd (SqrGrid.cells g) [] 0)
      by (done || lia).
    rewrite Z.sub_0_r.
    destruct (SqrGrid.cells g !! Z.to_nat x) as [kl|] eqn:Hlk; [|done].
    apply lookup_lt_Some in Hlk. lia.
Qed.


Lemma getRandomCell_negative_index :
  let g := snd grid3x3 in
  (counted g /\ (-1 < 0 \/ SqrGrid.numCells g <= -1))
  /\ SqrGrid.getRandomCell g (-1) = Return (Some 9%nat).
Proof.
  intros g.
  assert (Hc : counted g) by (split; [by_computation | reflexivity]).
  assert (Hx : -1 < 0 \/ SqrGrid.numCells g <= -1) by (left; reflexivity).
  split; [done|]. rewrite (getRandomCell_out_of_range g (-1) Hc Hx).
  vm_compute. reflexivity.
Defined.

(** ** The neighbour relation *)

Lemma getNeighbors_result (H : heap) (g : SqrGrid.t) (cell : loc)
    (diagonal : bool) (filter : option (Cell.t -> Cell.t -> bool)) :
  cell <> SqrGrid._cel g ->
  scratch_apart g ->
  snd (SqrGrid.getNeighbors H g cell diagonal filter)
  = expected_neighbours H g cell diagonal filter.
Proof.
  intros Hcell Hapart. unfold SqrGrid.getNeighbors, expected_neighbours, offsets.
  pose proof (probe_loop_spec H g cell filter SqrGrid._directions Hcell Hapart
                H [] (fun _ _ => eq_refl)) as Hp1.
  destruct (fold_left _ SqrGrid._directions _) as [H1 l1].
  cbn [fst snd] in Hp1. destruct Hp1 as [Ha1 Hl1].
  rewrite omap_app. destruct diagonal.
  - pose proof (probe_loop_spec H g cell filter SqrGrid._diagonals Hcell Hapart
                  H1 l1 Ha1) as Hp2.
    destruct (fold_left _ SqrGrid._diagonals _) as [H2 l2].
    cbn [fst snd] in Hp2. destruct Hp2 as [_ Hl2].
    cbn [snd]. by rewrite Hl2, Hl1.
  - cbn [snd]. rewrite Hl1. simpl. by rewrite app_nil_r.
Qed.

Lemma offsets_unit_step (diagonal : bool) (d : Z * Z) :
  d ∈ offsets diagonal -> Z.max (Z.abs (fst d)) (Z.abs (snd d)) = 1.
Proof.
  unfold offsets. rewrite elem_of_app. intros [Hd|Hd].
  - repeat (apply elem_of_cons in Hd as [->|Hd]; [reflexivity|]).
    by apply elem_of_nil in Hd.
  - destruct diagonal; [|by apply elem_of_nil in Hd].
    repeat (apply elem_of_cons in Hd as [->|Hd]; [reflexivity|]).
    by apply elem_of_nil in Hd.
Qed.

Lemma offsets_opposite (diagonal : bool) (d : Z * Z) :
  d ∈ offsets diagonal -> (- fst d, - snd d) ∈ offsets diagonal.
Proof.
  unfold offsets. rewrite !elem_of_app. intros [Hd|Hd].
  - left. repeat (apply elem_of_cons in Hd as [->|Hd]; [by_computation|]).
    by apply elem_of_nil in Hd.
  - destruct diagonal; [|by apply elem_of_nil in Hd]. right.
    repeat (apply elem_of_cons in Hd as [->|Hd]; [by_computation|]).
    by apply elem_of_nil in Hd.
Qed.

Lemma offsets_NoDup (diagonal : bool) : NoDup (offsets diagonal).
Proof. destruct diagonal; by_computation. Qed.

(** What it means for [n] to be found at offset [d] from [cell]. *)
Lemma neighbour_at_Some (H : heap) (g : SqrGrid.t) (cell n : loc)
    (filter : option (Cell.t -> Cell.t -> bool)) (d : Z * Z) :
  keyed H g ->
  neighbour_at H g cell filter d = Some n ->
  Obj.get (SqrGrid.cells g) (SqrGrid.cellToHash (deref H n)) = Some n
  /\ Cell.q (deref H n) = Cell.q (deref H cell) + fst d
  /\ Cell.r (deref H n) = Cell.r (deref H cell) + snd d
  /\ match filter with
     | Some f => f (deref H cell) (deref H n) = true
     | None => True
     end.
Proof.
  intros Hk. unfold neighbour_at.
  destruct (Obj.get _ _) as [m|] eqn:Hget; [|done].
  pose proof (obj_get_Forall _ _ _ _ Hk Hget) as Hkey. cbn [fst snd] in Hkey.
  intros Hsome.
  assert (m = n /\ match filter with
                   | Some f => f (deref H cell) (deref H n) = true
                   | None => True
                   end) as [-> Hf].
  { destruct filter as [f|].
    - destruct (f _ _) eqn:Hfm; [|done]. injection Hsome as ->. done.
    - by injection Hsome as ->. }
  unfold SqrGrid.cellToHash in Hkey. apply hash_of_inj in Hkey as [Hq Hr].
  rewrite <- Hq, <- Hr. repeat split; try done.
  unfold SqrGrid.cellToHash. by rewrite <- Hq, <- Hr.
Qed.

(** X12: when the queried cell is not the scratch cell, the scratch cell is not
    stored and every stored cell sits under the key of its coordinates, each
    cell that [getNeighbors] returns is a stored cell exactly one step away (on
    both axes at most one, and without the diagonal flag on one axis only), its
    [distance] from the queried cell is 1 plus the difference of the heights,
    and the filter, if there is one, accepts it. *)
Theorem neighbours_are_adjacent (H : heap) (g : SqrGrid.t) (cell : loc)
    (diagonal : bool) (filter : option (Cell.t -> Cell.t -> bool)) :
  cell <> SqrGrid._cel g ->
  scratch_apart g ->
  keyed H g ->
  Forall (fun n =>
            Obj.get (SqrGrid.cells g) (SqrGrid.cellToHash (deref H n)) = Some n
            /\ Z.max (Z.abs (Cell.q (deref H n) - Cell.q (deref H cell)))
                     (Z.abs (Cell.r (deref H n) - Cell.r (deref H cell))) = 1
            /\ (diagonal = false ->
                Z.abs (Cell.q (deref H n) - Cell.q (deref H cell))
                + Z.abs (Cell.r (deref H n) - Cell.r (deref H cell)) = 1)
            /\ SqrGrid.distance (deref H cell) (deref H n)
               = 1 + (Cell.h (deref H n) - Cell.h (deref H cell))
            /\ match filter with
               | Some f => f (deref H cell) (deref H n) = true
               | None => True
               end)
         (snd (SqrGrid.getNeighbors H g cell diagonal filter)).
Proof.
  intros Hcell Hapart Hk. rewrite getNeighbors_result by done.
  apply Forall_forall. intros n Hn.
  apply list_elem_of_omap in Hn as (d & Hd & Hsome).
  destruct (neighbour_at_Some H g cell n filter d Hk Hsome) as (Hst & Hq & Hr & Hf).
  pose proof (offsets_unit_step diagonal d Hd) as Hstep.
  split; [done|]. split; [rewrite Hq, Hr; lia|]. split; [|split; [|done]].
  - intros ->. rewrite Hq, Hr. unfold offsets in Hd. rewrite app_nil_r in Hd.
    repeat (apply elem_of_cons in Hd as [->|Hd]; [simpl; lia|]).
    by apply elem_of_nil in Hd.
  - unfold SqrGrid.distance. rewrite Hq, Hr. lia.
Qed.

Lemma neighbours_are_adjacent_example :
  let H := fst grid3x3 in
  let g := snd grid3x3 in
  (5%nat <> SqrGrid._cel g /\ scratch_apart g /\ keyed H g)
  /\ SqrGrid.distance (deref H 5%nat) (deref H 9%nat)
     = 1 + (Cell.h (deref H 9%nat) - Cell.h (deref H 5%nat)).
Proof.
  intros H g.
  assert (Hcell : 5%nat <> SqrGrid._cel g) by discriminate.
  assert (Hapart : scratch_apart g).
  { unfold scratch_apart. vm_compute SqrGrid.cells. vm_compute SqrGrid._cel.
    repeat (constructor; [discriminate|]). constructor. }
  assert (Hk : keyed H g).
  { unfold keyed. vm_compute SqrGrid.cells.
    repeat (constructor; [vm_compute; reflexivity|]). constructor. }
  split; [done|].
  pose proof (neighbours_are_adjacent H g 5%nat true None Hcell Hapart Hk) as Hall.
  rewrite Forall_forall in Hall.
  assert (Hin : 9%nat ∈ snd (SqrGrid.getNeighbors H g 5%nat true None)) by by_computation.
  destruct (Hall 9%nat Hin) as (_ & _ & _ & Hd & _). exact Hd.
Defined.

Lemma omap_length_le {A B : Type} (f : A -> option B) (l : list A) :
  (length (omap f l) <= length l)%nat.
Proof.
  induction l as [|x l IH]; [done|]. cbn [omap list_omap].
  fold (omap f l). destruct (f x); simpl; lia.
Qed.

Lemma omap_NoDup {A B : Type} (f : A -> option B) (l : list A) :
  (forall x y z, x ∈ l -> y ∈ l -> f x = Some z -> f y = Some z -> x = y) ->
  NoDup l -> NoDup (omap f l).
Proof.
  intros Hinj. induction 1 as [|x l Hx Hnd IH]; simpl; [constructor|].
  assert (IH' : NoDup (omap f l)).
  { apply IH. intros a b z Ha Hb. apply Hinj; by right. }
  destruct (f x) as [z|] eqn:Hfx; [|done]. constructor; [|done].
  intros Hz. apply list_elem_of_omap in Hz as (y & Hy & Hfy).
  assert (x = y) by (apply (Hinj x y z); [left | by right | done | done]).
  by subst.
Qed.

(** X13: under the same conditions [getNeighbors] returns no cell twice, never
    returns the queried cell itself, and returns at most 4 cells, or 8 with the
    diagonal flag. *)
Theorem neighbours_distinct (H : heap) (g : SqrGrid.t) (cell : loc)
    (diagonal : bool) (filter : option (Cell.t -> Cell.t -> bool)) :
  cell <> SqrGrid._cel g ->
  scratch_apart g ->
  keyed H g ->
  let res := snd (SqrGrid.getNeighbors H g cell diagonal filter) in
  NoDup res
  /\ (cell ∉ res)
  /\ (length res <= if diagonal then 8 else 4)%nat.
Proof.
  intros Hcell Hapart Hk res. unfold res. rewrite getNeighbors_result by done.
  unfold expected_neighbours. split; [|split].
  - apply omap_NoDup; [|apply offsets_NoDup].
    intros [dq dr] [dq' dr'] n _ _ Hx Hy.
    destruct (neighbour_at_Some H g cell n filter _ Hk Hx) as (_ & Hq & Hr & _).
    destruct (neighbour_at_Some H g cell n filter _ Hk Hy) as (_ & Hq' & Hr' & _).
    cbn [fst snd] in *. f_equal; lia.
  - intros Hin. apply list_elem_of_omap in Hin as (d & Hd & Hsome).
    destruct (neighbour_at_Some H g cell cell filter d Hk Hsome) as (_ & Hq & Hr & _).
    pose proof (offsets_unit_step diagonal d Hd). lia.
  - etrans; [apply omap_length_le|]. by destruct diagonal.
Qed.

Lemma neighbours_distinct_example :
  let H := fst grid3x3 in
  let g := snd grid3x3 in
  (1%nat <> SqrGrid._cel g /\ scratch_apart g /\ keyed H g)
  /\ NoDup (snd (SqrGrid.getNeighbors H g 1%nat true None))
  /\ (length (snd (SqrGrid.getNeighbors H g 1%nat true None)) <= 8)%nat.
Proof.
  intros H g.
  assert (Hcell : 1%nat <> SqrGrid._cel g) by discriminate.
  assert (Hapart : scratch_apart g).
  { unfold scratch_apart. vm_compute SqrGrid.cells. vm_compute SqrGrid._cel.
    repeat (constructor; [discriminate|]). constructor. }
  assert (Hk : keyed H g).
  { unfold keyed. vm_compute SqrGrid.cells.
    repeat (constructor; [vm_compute; reflexivity|]). constructor. }
  split; [done|].
  destruct (neighbours_distinct H g 1%nat true None Hcell Hapart Hk) as (Hnd & _ & Hlen).
  split; [exact Hnd | exact Hlen].
Defined.

(** X14: without a filter, being a neighbour is mutual.  When the scratch cell
    is not stored and every stored cell sits under the key of its coordinates:
    if [getNeighbors] of a stored cell [a] returns [b], then [getNeighbors] of
    [b], with the same diagonal flag, returns [a]. *)
Theorem neighbours_symmetric (H : heap) (g : SqrGrid.t) (a b : loc) (diagonal : bool) :
  scratch_apart g ->
  keyed H g ->
  Obj.get (SqrGrid.cells g) (SqrGrid.cellToHash (deref H a)) = Some a ->
  b ∈ snd (SqrGrid.getNeighbors H g a diagonal None) ->
  a ∈ snd (SqrGrid.getNeighbors H g b diagonal None).
Proof.
  intros Hapart Hk Hsta Hin.
  assert (Ha : a <> SqrGrid._cel g) by apply (obj_get_Forall _ _ _ _ Hapart Hsta).
  rewrite getNeighbors_result in Hin by done.
  apply list_elem_of_omap in Hin as (d & Hd & Hsome).
  destruct (neighbour_at_Some H g a b None d Hk Hsome) as (Hstb & Hq & Hr & _).
  assert (Hb : b <> SqrGrid._cel g) by apply (obj_get_Forall _ _ _ _ Hapart Hstb).
  rewrite getNeighbors_result by done.
  apply list_elem_of_omap. exists (- fst d, - snd d).
  split; [by apply offsets_opposite|].
  unfold neighbour_at. cbn [fst snd].
  replace (Cell.q (deref H b) + - fst d) with (Cell.q (deref H a)) by lia.
  replace (Cell.r (deref H b) + - snd d) with (Cell.r (deref H a)) by lia.
  fold (SqrGrid.cellToHash (deref H a)). by rewrite Hsta.
Qed.

Lemma neighbours_symmetric_example :
  let H := fst grid3x3 in
  let g := snd grid3x3 in
  (scratch_apart g /\ keyed H g
   /\ Obj.get (SqrGrid.cells g) (SqrGrid.cellToHash (deref H 5%nat)) = Some 5%nat
   /\ 9%nat ∈ snd (SqrGrid.getNeighbors H g 5%nat true None))
  /\ 5%nat ∈ snd (SqrGrid.getNeighbors H g 9%nat true None).
Proof.
  intros H g.
  assert (Hapart : scratch_apart g).
  { unfold scratch_apart. vm_compute SqrGrid.cells. vm_compute SqrGrid._cel.
    repeat (constructor; [discriminate|]). constructor. }
  assert (Hk : keyed H g).
  { unfold keyed. vm_compute SqrGrid.cells.
    repeat (constructor; [vm_compute; reflexivity|]). constructor. }
  assert (Hst : Obj.get (SqrGrid.cells g) (SqrGrid.cellToHash (deref H 5%nat))
                = Some 5%nat) by (vm_compute; reflexivity).
  assert (Hin : 9%nat ∈ snd (SqrGrid.getNeighbors H g 5%nat true None)) by by_computation.
  split; [done|].
  exact (neighbours_symmetric H g 5%nat 9%nat true Hapart Hk Hst Hin).
Defined.

(** ** Generation for any size *)

Lemma Math_ceil_half (n : Z) : Math_ceil (inject_Z n / 2)%Q = (n + 1) / 2.
Proof.
  unfold Math_ceil, Qceiling. 
  assert (Heq : (- (inject_Z n / 2) == inject_Z (- n) / inject_Z 2)%Q).
  { rewrite inject_Z_opp. unfold Qdiv. change (inject_Z 2) with 2%Q. ring. }
  rewrite Heq, <- Zdiv_Qdiv.
  pose proof (Z.div_mod (- n) 2 ltac:(lia)). pose proof (Z.mod_pos_bound (- n) 2 ltac:(lia)).
  pose proof (Z.div_mod (n + 1) 2 ltac:(lia)). pose proof (Z.mod_pos_bound (n + 1) 2 ltac:(lia)).
  lia.
Qed.

Lemma NoDup_list_prod {A B : Type} (xs : list A) (ys : list B) :
  NoDup xs -> NoDup ys -> NoDup (list_prod xs ys).
Proof.
  intros Hxs Hys. induction Hxs as [|x xs Hx Hxs IH]; simpl; [constructor|].
  apply NoDup_app. split; [|split; [|done]].
  - change (map (fun y => (x, y)) ys) with ((fun y => (x, y)) <$> ys).
    apply NoDup_fmap_2; [|done]. by intros y y' [= ->].
  - intros [a b] Hin Hin'. apply list_elem_of_In, in_map_iff in Hin as (y & [= <- <-] & _).
    apply list_elem_of_In, in_prod_iff in Hin' as [Hin' _]. by apply list_elem_of_In in Hin'.
Qed.

Lemma generated_keys_NoDup (half : Z) :
  NoDup (map (fun a => SqrGrid.cellToHash (generated_value a)) (generated_steps half)).
Proof.
  change (map ?f ?l) with (f <$> l). apply NoDup_fmap_2_strong.
  - intros [x y] [x' y'] _ _ Heq. unfold SqrGrid.cellToHash in Heq. simpl in Heq.
    apply hash_of_inj in Heq as [-> ?]. f_equal. lia.
  - apply NoDup_list_prod; apply NoDup_seqZ.
Qed.

Lemma generated_steps_elem (half q r : Z) :
  (q, r) ∈ map (fun xy : Z * Z => (fst xy, snd xy + 1)) (generated_steps half)
  <-> (- half <= q < half /\ - half < r <= half).
Proof.
  rewrite list_elem_of_In, in_map_iff. split.
  - intros ([x y] & [= <- <-] & Hin). apply in_prod_iff in Hin as [Hx Hy].
    apply list_elem_of_In, elem_of_seqZ in Hx. apply list_elem_of_In, elem_of_seqZ in Hy.
    simpl. lia.
  - intros [Hq Hr]. exists (q, r - 1). split; [simpl; f_equal; lia|].
    apply in_prod_iff. split; apply list_elem_of_In, elem_of_seqZ; lia.
Qed.

Lemma generated_steps_length (half : Z) :
  Z.of_nat (length (generated_steps half)) = Z.max 0 (2 * half) * Z.max 0 (2 * half).
Proof. unfold generated_steps. rewrite length_prod, !length_seqZ. lia. Qed.

(** [generate] as a loop of allocating steps. *)
Lemma generate_fold (H : heap) (g : SqrGrid.t) (cfg : option Z) :
  let n := config_size g cfg in
  let xs := generated_steps (Math_ceil (inject_Z n / 2)%Q) in
  let ls := seq (next H) (length xs) in
  let ks := map (fun a => SqrGrid.cellToHash (generated_value a)) xs in
  exists H',
    SqrGrid.generate H g cfg = (H', fold_left add_at (zip ks ls) (SqrGrid.with_size g n))
    /\ next H' = (next H + length xs)%nat
    /\ map (deref H') ls = map generated_value xs
    /\ (forall l, (l < next H)%nat -> deref H' l = deref H l).
Proof.
  intros n xs ls ks. unfold SqrGrid.generate. fold (config_size g cfg). fold n.
  cbn [SqrGrid.with_size SqrGrid.size]. rewrite for_range_nested.
  fold (generated_steps (Math_ceil (inject_Z n / 2)%Q)). fold xs.
  destruct (fold_allocates _ _ generate_cell_allocates xs H (SqrGrid.with_size g n))
    as (Hn & Hv & Hfr & Hg).
  destruct (fold_left _ xs (H, _)) as [H' g'] eqn:Hrun.
  cbn [fst snd] in Hn, Hv, Hfr, Hg. exists H'. by rewrite Hg.
Qed.

(** X15: on a grid with an empty store, [generate] with size [n] (the size given,
    or the grid's [size] when none is given) stores exactly the cells [(q, r)]
    with [-half <= q < half] and [-half < r <= half], where [half] is [n / 2]
    rounded up, each once: [(2 * half)] squared cells, which is [n] squared only
    for even [n].  For [n] below 1 nothing is stored.  [size] becomes [n] and
    [autogenerated] is not touched. *)
Theorem generate_any_size (H : heap) (g : SqrGrid.t) (cfg : option Z) :
  SqrGrid.cells g = [] ->
  let n := config_size g cfg in
  let half := (n + 1) / 2 in
  let '(H', g') := SqrGrid.generate H g cfg in
  (forall q r, (q, r) ∈ stored_pairs H' g' <-> (- half <= q < half /\ - half < r <= half))
  /\ NoDup (stored_pairs H' g')
  /\ SqrGrid.numCells g' = SqrGrid.numCells g + Z.max 0 (2 * half) * Z.max 0 (2 * half)
  /\ SqrGrid.size g' = n
  /\ SqrGrid.autogenerated g' = SqrGrid.autogenerated g.
Proof.
  intros Hempty n half.
  destruct (generate_fold H g cfg) as (H' & -> & _ & Hv & _). fold n in Hv |- *.
  rewrite Math_ceil_half in Hv |- *. fold half in Hv |- *.
  set (xs := generated_steps half) in *.
  set (ls := seq (next H) (length xs)) in *.
  set (ks := map (fun a => SqrGrid.cellToHash (generated_value a)) xs) in *.
  assert (Hkl : length ks = length ls).
  { unfold ks, ls. by rewrite length_map, length_seq. }
  assert (Hfst : map fst (zip ks ls) = ks) by (apply fst_zip; lia).
  rewrite add_at_fold_fresh.
  2:{ rewrite Hfst. apply generated_keys_NoDup. }
  2:{ intros k _. cbn [SqrGrid.with_size SqrGrid.cells]. rewrite Hempty. apply not_elem_of_nil. }
  unfold SqrGrid.with_cells, SqrGrid.with_size, stored_pairs.
  cbn [SqrGrid.cells SqrGrid.numCells SqrGrid.size SqrGrid.autogenerated].
  rewrite Hempty, app_nil_l, (stored_pairs_zip H' xs ks ls Hkl Hv).
  split; [|split; [|split; [|done]]].
  - intros q r. apply generated_steps_elem.
  - change (map ?f ?l) with (f <$> l). apply NoDup_fmap_2_strong.
    + intros [x y] [x' y'] _ _ [= -> ?]. f_equal. lia.
    + apply NoDup_list_prod; apply NoDup_seqZ.
  - rewrite length_zip_with, <- Hkl, Nat.min_id. unfold ks. rewrite length_map.
    unfold xs. by rewrite generated_steps_length.
Qed.

Lemma generate_any_size_example :
  SqrGrid.cells (snd fresh_grid) = []
  /\ SqrGrid.numCells (snd generated4) = 16
  /\ SqrGrid.size (snd generated4) = 4.
Proof.
  assert (He : SqrGrid.cells (snd fresh_grid) = []) by reflexivity.
  split; [exact He|].
  pose proof (generate_any_size (fst fresh_grid) (snd fresh_grid) (Some 4) He) as Hs.
  unfold generated4.
  destruct (SqrGrid.generate (fst fresh_grid) (snd fresh_grid) (Some 4)) as [H' g'].
  destruct Hs as (_ & _ & Hn & Hsz & _). split; [exact Hn | exact Hsz].
Defined.

Lemma add_at_fold_present (kls : list (string * loc)) (g : SqrGrid.t) :
  (forall k, k ∈ map fst kls -> k ∈ Obj.keys (SqrGrid.cells g)) ->
  fold_left add_at kls g = g.
Proof.
  induction kls as [|[k l] kls IH]; intros Hall; [done|]. cbn [fold_left].
  assert (Hk : add_at g (k, l) = g).
  { unfold add_at. cbn [fst]. destruct (Obj.get (SqrGrid.cells g) k) eqn:Hg; [done|].
    apply obj_get_None in Hg. destruct Hg. apply Hall. left. }
  rewrite Hk. apply IH. intros k' Hk'. apply Hall. by right.
Qed.

Lemma add_at_fold_sublist (kls : list (string * loc)) :
  forall g, SqrGrid.cells (fold_left add_at kls g) `sublist_of` SqrGrid.cells g ++ kls
            /\ SqrGrid.cells g `prefix_of` SqrGrid.cells (fold_left add_at kls g).
Proof.
  induction kls as [|kl kls IH]; intros g.
  - simpl. by rewrite app_nil_r.
  - cbn [fold_left]. destruct (IH (add_at g kl)) as [Hs Hp]. destruct kl as [k l].
    assert (Hone : SqrGrid.cells (add_at g (k, l)) = SqrGrid.cells g
                   \/ SqrGrid.cells (add_at g (k, l)) = SqrGrid.cells g ++ [(k, l)]).
    { unfold add_at. destruct (Obj.get _ _) eqn:Hg; [by left|]. right.
      cbn [SqrGrid.with_cells SqrGrid.cells]. by apply obj_set_absent. }
    destruct Hone as [Heq|Heq]; rewrite Heq in Hs, Hp.
    + split; [|done]. etrans; [exact Hs|].
      apply sublist_app; [done|]. by apply sublist_cons.
    + split.
      * by rewrite <- app_assoc in Hs.
      * etrans; [|exact Hp]. by apply prefix_app_r.
Qed.

(** X16: on any consistent grid, [generate] only adds.  The entries already
    stored keep their cells and come first in the enumeration, no cell that
    existed before is written to, the store stays consistent, and afterwards
    every coordinate of the square is occupied. *)
Theorem generate_fills_square (H : heap) (g : SqrGrid.t) (cfg : option Z) :
  counted g ->
  let half := (config_size g cfg + 1) / 2 in
  let '(H', g') := SqrGrid.generate H g cfg in
  counted g'
  /\ SqrGrid.cells g `prefix_of` SqrGrid.cells g'
  /\ (forall k l, Obj.get (SqrGrid.cells g) k = Some l -> Obj.get (SqrGrid.cells g') k = Some l)
  /\ (forall q r, - half <= q < half -> - half < r <= half ->
        Obj.get (SqrGrid.cells g') (SqrGrid.hash_of q r) <> None)
  /\ (forall l, (l < next H)%nat -> deref H' l = deref H l).
Proof.
  intros Hc half.
  destruct (generate_fold H g cfg) as (H' & -> & _ & Hv & Hfr).
  rewrite Math_ceil_half in Hv |- *. fold half in Hv |- *.
  set (xs := generated_steps half) in *.
  set (ls := seq (next H) (length xs)) in *.
  set (ks := map (fun a => SqrGrid.cellToHash (generated_value a)) xs) in *.
  set (g1 := SqrGrid.with_size g (config_size g cfg)).
  assert (Hc1 : counted g1) by exact Hc.
  destruct (add_at_fold (zip ks ls) g1 Hc1) as (Hc' & Hget & _ & _).
  destruct (add_at_fold_sublist (zip ks ls) g1) as [_ Hpre].
  split; [done|]. split; [exact Hpre|]. split; [|split; [|done]].
  - intros k l Hkl. rewrite Hget, obj_get_app.
    change (SqrGrid.cells g1) with (SqrGrid.cells g). by rewrite Hkl.
  - intros q r Hq Hr. rewrite Hget. intros Hnone. apply obj_get_None in Hnone.
    apply Hnone. unfold Obj.keys. rewrite map_app. apply elem_of_app. right.
    rewrite fst_zip by (unfold ks, ls; rewrite length_map, length_seq; lia).
    unfold ks. apply list_elem_of_In, in_map_iff. exists (q, r - 1). split.
    + unfold SqrGrid.cellToHash, generated_value. simpl. f_equal. lia.
    + apply in_prod_iff. split; apply list_elem_of_In, elem_of_seqZ; lia.
Qed.

(** The grid with one cell at [(0, 0)] keeps that cell (location 1) when a
    square around the origin is generated over it. *)
Lemma generate_keeps_stored_cell :
  let H := fst one_cell_grid in
  let g := snd one_cell_grid in
  counted g
  /\ Obj.get (SqrGrid.cells g) (SqrGrid.hash_of 0 0) = Some 1%nat
  /\ Obj.get (SqrGrid.cells (snd (SqrGrid.generate H g (Some 2)))) (SqrGrid.hash_of 0 0)
     = Some 1%nat.
Proof.
  intros H g.
  assert (Hc : counted g) by (split; [by_computation | reflexivity]).
  assert (Hst : Obj.get (SqrGrid.cells g) (SqrGrid.hash_of 0 0) = Some 1%nat)
    by (vm_compute; reflexivity).
  split; [exact Hc|]. split; [exact Hst|].
  pose proof (generate_fills_square H g (Some 2) Hc) as Hs.
  destruct (SqrGrid.generate H g (Some 2)) as [H' g'].
  destruct Hs as (_ & _ & Hkeep & _). exact (Hkeep _ _ Hst).
Defined.

(** X17: generating a second time with the same size, given again or left out,
    leaves the grid exactly as the first call left it, and writes to none of the
    cells that exist. *)
Theorem generate_twice (H : heap) (g : SqrGrid.t) (n : Z) (cfg2 : option Z) :
  counted g ->
  cfg2 = None \/ cfg2 = Some n ->
  let '(H1, g1) := SqrGrid.generate H g (Some n) in
  let '(H2, g2) := SqrGrid.generate H1 g1 cfg2 in
  g2 = g1 /\ forall l, (l < next H1)%nat -> deref H2 l = deref H1 l.
Proof.
  intros Hc Hcfg.
  destruct (generate_fold H g (Some n)) as (H1 & -> & _ & _ & _).
  cbn [config_size].
  set (xs := generated_steps (Math_ceil (inject_Z n / 2)%Q)) in *.
  set (ks := map (fun a => SqrGrid.cellToHash (generated_value a)) xs) in *.
  set (g0 := SqrGrid.with_size g n).
  set (g1 := fold_left add_at (zip ks (seq (next H) (length xs))) g0).
  assert (Hc0 : counted g0) by exact Hc.
  destruct (add_at_fold (zip ks (seq (next H) (length xs))) g0 Hc0)
    as (_ & Hget & _ & Hfr). fold g1 in Hget, Hfr.
  assert (Hsize : SqrGrid.size g1 = n) by (by rewrite Hfr).
  assert (Hn2 : config_size g1 cfg2 = n).
  { destruct Hcfg as [-> | ->]; [exact Hsize | done]. }
  destruct (generate_fold H1 g1 cfg2) as (H2 & -> & _ & _ & Hfr2).
  rewrite Hn2. fold xs. fold ks.
  assert (Hid : SqrGrid.with_size g1 n = g1).
  { rewrite <- Hsize. by destruct g1. }
  rewrite Hid. split; [|exact Hfr2].
  apply add_at_fold_present. intros k Hk.
  rewrite fst_zip in Hk by (unfold ks; rewrite length_map, length_seq; lia).
  destruct (Obj.get (SqrGrid.cells g1) k) eqn:Hg1.
  - apply obj_get_Some_In in Hg1. unfold Obj.keys.
    apply list_elem_of_In, in_map_iff. exists (k, n0). split; [done|]. by apply list_elem_of_In.
  - rewrite Hget in Hg1. apply obj_get_None in Hg1. destruct Hg1.
    unfold Obj.keys. rewrite map_app. apply elem_of_app. right.
    by rewrite fst_zip by (unfold ks; rewrite length_map, length_seq; lia).
Qed.

Lemma generate_twice_example :
  (counted (snd fresh_grid) /\ (@None Z = None \/ @None Z = Some 4))
  /\ snd (SqrGrid.generate (fst generated4) (snd generated4) None) = snd generated4.
Proof.
  assert (Hc : counted (snd fresh_grid)) by (split; [apply NoDup_nil_2 | reflexivity]).
  assert (Hcfg : @None Z = None \/ @None Z = Some 4) by (left; reflexivity).
  split; [done|].
  pose proof (generate_twice (fst fresh_grid) (snd fresh_grid) 4 None Hc Hcfg) as Hs.
  unfold generated4.
  destruct (SqrGrid.generate (fst fresh_grid) (snd fresh_grid) (Some 4)) as [H1 g1].
  cbn [fst snd]. destruct (SqrGrid.generate H1 g1 None) as [H2 g2].
  exact (proj1 Hs).
Defined.

(** ** Load and save *)

(** [fromJSON] as a loop of allocating steps. *)
Lemma fromJSON_fold (H : heap) (g : SqrGrid.t) (j : Json.t) (ds : list Cell.data) :
  Json.cells j = Some ds ->
  let ls := seq (next H) (length ds) in
  let g1 := SqrGrid.mk (Json.size j) (Json.cellSize j) Obj.empty 0 (Json.extrudeSettings j)
              (Json.autogenerated j) (Json.cellSize j * 2)%Q
              (SqrGrid._list g) (SqrGrid._vec3 g) (SqrGrid._cel g) in
  exists H',
    SqrGrid.fromJSON H g j =
      (H', fold_left add_at (zip (map data_hash ds) ls) g1, Return tt)
    /\ next H' = (next H + length ds)%nat
    /\ map (deref H') ls = map load_value ds
    /\ (forall l, (l < next H)%nat -> deref H' l = deref H l).
Proof.
  intros Hds ls g1. unfold SqrGrid.fromJSON. rewrite Hds. fold g1.
  destruct (fold_allocates _ _ load_cell_allocates ds H g1) as (Hn & Hv & Hfr & Hg).
  destruct (fold_left SqrGrid.load_cell ds (H, g1)) as [H' g'].
  cbn [fst snd] in Hn, Hv, Hfr, Hg. exists H'. by rewrite Hg.
Qed.

Lemma data_hash_NoDup (ds : list Cell.data) :
  NoDup (map (fun d => (Cell.d_q d, Cell.d_r d)) ds) -> NoDup (map data_hash ds).
Proof.
  intros Hnd.
  assert (Heq : map data_hash ds =
                (fun p : Z * Z => SqrGrid.hash_of (fst p) (snd p))
                  <$> map (fun d => (Cell.d_q d, Cell.d_r d)) ds).
  { induction ds as [|d ds IH]; simpl; [done|]. f_equal. apply IH.
    simpl in Hnd. by apply NoDup_cons in Hnd as [_ ?]. }
  rewrite Heq. apply NoDup_fmap_2_strong; [|done].
  intros [q r] [q' r'] _ _ Hh. cbn [fst snd] in Hh.
  apply hash_of_inj in Hh as [-> ->]. done.
Qed.

(** [toJSON] in one piece, for a store without a repeated key. *)
Lemma toJSON_stored_records (H : heap) (g : SqrGrid.t) :
  NoDup (Obj.keys (SqrGrid.cells g)) ->
  Json.mk (SqrGrid.size g) (SqrGrid.cellSize g) (SqrGrid.extrudeSettings g)
          (SqrGrid.autogenerated g) (Some (stored_records H g))
  = SqrGrid.toJSON H g.
Proof.
  intros Hnd. pose proof (toJSON_cells H g Hnd) as Hc.
  unfold SqrGrid.toJSON in *. simpl in Hc. by rewrite Hc.
Qed.

(** X18: a record that has its [cells], no two of them at the same [(q, r)], is
    loaded without an exception, and [toJSON] of the loaded grid gives the
    record back: [size], [cellSize], [extrudeSettings], [autogenerated] and the
    cells, field for field and in their order.  [numCells] is the number of
    cells of the record. *)
Theorem fromJSON_then_toJSON (H : heap) (g : SqrGrid.t) (j : Json.t) (ds : list Cell.data) :
  Json.cells j = Some ds ->
  NoDup (map (fun d => (Cell.d_q d, Cell.d_r d)) ds) ->
  let '(H', g', res) := SqrGrid.fromJSON H g j in
  res = Return tt
  /\ SqrGrid.toJSON H' g' = j
  /\ SqrGrid.numCells g' = Z.of_nat (length ds).
Proof.
  intros Hds Hnd.
  destruct (fromJSON_fold H g j ds Hds) as (H' & -> & _ & Hv & _).
  set (ls := seq (next H) (length ds)) in *.
  assert (Hkl : length (map data_hash ds) = length ls).
  { unfold ls. by rewrite length_map, length_seq. }
  assert (Hfst : map fst (zip (map data_hash ds) ls) = map data_hash ds)
    by (apply fst_zip; lia).
  assert (Hsnd : map snd (zip (map data_hash ds) ls) = ls) by (apply snd_zip; lia).
  assert (Hkeys : NoDup (map data_hash ds)) by (by apply data_hash_NoDup).
  rewrite add_at_fold_fresh.
  2:{ by rewrite Hfst. }
  2:{ intros k _. simpl. apply not_elem_of_nil. }
  unfold SqrGrid.with_cells, Obj.empty. cbn [SqrGrid.cells SqrGrid.numCells app].
  split; [done|]. split.
  - rewrite <- (toJSON_stored_records H').
    2:{ unfold Obj.keys. cbn [SqrGrid.cells]. by rewrite Hfst. }
    unfold stored_records. cbn [SqrGrid.cells SqrGrid.size SqrGrid.cellSize
      SqrGrid.extrudeSettings SqrGrid.autogenerated].
    rewrite <- (map_map snd (fun l => Cell.fields (deref H' l))), Hsnd.
    rewrite <- (map_map (deref H') Cell.fields), Hv, map_map.
    rewrite (map_ext _ id fields_load_value), map_id, <- Hds. by destruct j.
  - rewrite length_zip_with, Hkl, Nat.min_id. unfold ls. rewrite length_seq. lia.
Qed.

Lemma fromJSON_then_toJSON_example :
  let H := fst one_cell_grid in
  let g := snd one_cell_grid in
  (Json.cells two_cells_json
   = Some [Cell.mkData 0 0 0 1 true [];
           Cell.mkData 1 (-2) 0 4 false [("kind"%string, "rock"%string)]]
   /\ NoDup (map (fun d => (Cell.d_q d, Cell.d_r d))
                 [Cell.mkData 0 0 0 1 true [];
                  Cell.mkData 1 (-2) 0 4 false [("kind"%string, "rock"%string)]]))
  /\ SqrGrid.toJSON (fst (fst (SqrGrid.fromJSON H g two_cells_json)))
                    (snd (fst (SqrGrid.fromJSON H g two_cells_json)))
     = two_cells_json.
Proof.
  intros H g.
  assert (Hds : Json.cells two_cells_json
                = Some [Cell.mkData 0 0 0 1 true [];
                        Cell.mkData 1 (-2) 0 4 false [("kind"%string, "rock"%string)]])
    by reflexivity.
  assert (Hnd : NoDup (map (fun d => (Cell.d_q d, Cell.d_r d))
                 [Cell.mkData 0 0 0 1 true [];
                  Cell.mkData 1 (-2) 0 4 false [("kind"%string, "rock"%string)]]))
    by by_computation.
  split; [done|].
  pose proof (fromJSON_then_toJSON H g two_cells_json _ Hds Hnd) as Hs.
  destruct (SqrGrid.fromJSON H g two_cells_json) as [[H' g'] res].
  exact (proj1 (proj2 Hs)).
Defined.

(** X19: the cells of a loaded grid are new objects.  [fromJSON] builds one
    cell for each record of [cells], writes to no cell that existed before, and
    stores only cells it has just built, each at most once: the loaded grid
    shares no cell with the grid before the load or with any other grid. *)
Theorem fromJSON_allocates_fresh (H : heap) (g : SqrGrid.t) (j : Json.t)
    (ds : list Cell.data) :
  Json.cells j = Some ds ->
  let '(H', g', res) := SqrGrid.fromJSON H g j in
  next H' = (next H + length ds)%nat
  /\ (forall l, (l < next H)%nat -> deref H' l = deref H l)
  /\ Forall (fun kv => (next H <= snd kv < next H')%nat) (SqrGrid.cells g')
  /\ NoDup (map snd (SqrGrid.cells g')).
Proof.
  intros Hds.
  destruct (fromJSON_fold H g j ds Hds) as (H' & -> & Hn & _ & Hfr).
  set (ls := seq (next H) (length ds)) in *.
  set (g1 := SqrGrid.mk _ _ _ _ _ _ _ _ _ _).
  destruct (add_at_fold_sublist (zip (map data_hash ds) ls) g1) as [Hsub _].
  assert (Hlocs : map snd (SqrGrid.cells (fold_left add_at (zip (map data_hash ds) ls) g1))
                  `sublist_of` ls).
  { change (map snd ?l) with (snd <$> l). etrans; [by apply fmap_sublist|].
    simpl. change (snd <$> ?l) with (map snd l).
    rewrite snd_zip by (unfold ls; rewrite length_map, length_seq; lia). done. }
  split; [done|]. split; [done|]. split.
  - apply Forall_forall. intros [k l] Hin. cbn [snd].
    assert (Hl : l ∈ ls).
    { eapply elem_of_sublist; [|exact Hlocs].
      apply list_elem_of_In, in_map_iff. exists (k, l). split; [done|]. by apply list_elem_of_In. }
    apply elem_of_seq in Hl. lia.
  - eapply sublist_NoDup; [|exact Hlocs]. apply NoDup_seq.
Qed.

Lemma fromJSON_allocates_fresh_example :
  let H := fst one_cell_grid in
  let g := snd one_cell_grid in
  Json.cells twice_json = Some [Cell.mkData 0 0 0 1 true []; Cell.mkData 0 0 0 2 true []]
  /\ next H = 3%nat
  /\ next (fst (fst (SqrGrid.fromJSON H g twice_json))) = 5%nat
  /\ NoDup (map snd (SqrGrid.cells (snd (fst (SqrGrid.fromJSON H g twice_json))))).
Proof.
  intros H g.
  assert (Hds : Json.cells twice_json =
                Some [Cell.mkData 0 0 0 1 true []; Cell.mkData 0 0 0 2 true []])
    by reflexivity.
  split; [exact Hds|]. split; [reflexivity|].
  pose proof (fromJSON_allocates_fresh H g twice_json _ Hds) as Hs.
  destruct (SqrGrid.fromJSON H g twice_json) as [[H' g'] res].
  destruct Hs as (Hn & _ & _ & Hnd). split; [exact Hn | exact Hnd].
Defined.
